(** * Soundify: the Spotify request executor ([src/api/client.ts])

    A shallow embedding of [SpotifyClient.fetch] and of the platform objects
    it drives ([Headers], [Response], the token provider), followed by the
    properties of its retry / refresh / error-classification logic.

    Conventions of the embedding.
    - The recursive closure [call] may retry without bound (rate-limit
      retries), so it is run with fuel; running out of fuel is an explicit
      outcome and the trace recorded so far is kept.
    - Everything the executor does to the outside world is recorded in a
      trace of events (physical attempts, provider calls, timers, body
      stream reads and cancellations).
    - Collaborators are black boxes that answer: the transport resolves with
      a response and the provider's methods, when the object has them,
      resolve with a value.  They act on an environment state of an
      arbitrary type, so they may change between two attempts.
    - The client object is not mutated while a call is in flight:
      [setAuthProvider] acts between calls.
    - A JavaScript number is an IEEE 754 binary64 value, represented by
      the rational it stands for; every operation rounds to the nearest
      such value, ties to even, with underflow to zero and overflow to
      infinity.  The sign of a zero is not kept: nothing in this program
      tells [+0] from [-0].
    - A string is a sequence of code units below 256. *)

From Stdlib Require Import Bool Arith ZArith NArith QArith Lia List String Ascii.
From Stdlib Require Import DecimalString DecimalN.
Import ListNotations.

Local Close Scope Q_scope.
Local Open Scope string_scope.
Local Open Scope list_scope.

(** ** JavaScript numbers and [Number(string)] *)

Inductive JSNumber : Type :=
| NaN
| Fin (q : Q)
| Infinity (negative : bool).

(** [if (n)] on a number: false for [NaN], [+0] and [-0]. *)
Definition number_truthy (n : JSNumber) : bool :=
  match n with
  | NaN => false
  | Fin q => negb (Qnum q =? 0)%Z
  | Infinity _ => true
  end.

(** Rounding of a real number, here a rational, to binary64. *)
Module Binary64.

(** [floor (log2 (a / d))] for positive [a] and [d]. *)
Definition ilog2 (a d : Z) : Z :=
  let k := (Z.log2 a - Z.log2 d)%Z in
  let above := if (0 <=? k)%Z then (d * 2 ^ k <=? a)%Z
               else (d <=? a * 2 ^ (- k))%Z in
  if above then k else (k - 1)%Z.

(** The integer nearest to [n / d], for [d > 0]; of two nearest, the even
    one. *)
Definition nearest_even (n d : Z) : Z :=
  let (q, r) := Z.div_eucl n d in
  match (2 * r ?= d)%Z with
  | Lt => q
  | Gt => (q + 1)%Z
  | Eq => if Z.even q then q else (q + 1)%Z
  end.

(** [m * 2 ^ e] as a fraction in lowest terms. *)
Definition scaled (m e : Z) : Q :=
  if (0 <=? e)%Z then inject_Z (m * 2 ^ e)
  else Qred (m # Z.to_pos (2 ^ (- e))).

(** The binary64 value nearest to [a / d], for positive [a] and [d]: a
    significand [m] of at most 53 bits and an exponent [e] of at least
    [-1074] (below [2 ^ -1022] the values are subnormal); [None] when the
    rounded value is [2 ^ 1024] or more. *)
Definition round_pos (a d : Z) : option Q :=
  let e := Z.max (ilog2 a d - 52) (-1074) in
  let m := if (0 <=? e)%Z then nearest_even a (d * 2 ^ e)
           else nearest_even (a * 2 ^ (- e)) d in
  if (0 <=? e)%Z && (2 ^ 1024 <=? m * 2 ^ e)%Z then None
  else Some (scaled m e).

Definition round (q : Q) : JSNumber :=
  let r := Qred q in
  match Qnum r with
  | Z0 => Fin 0
  | Zpos a =>
      match round_pos (Zpos a) (Zpos (Qden r)) with
      | Some v => Fin v
      | None => Infinity false
      end
  | Zneg a =>
      match round_pos (Zpos a) (Zpos (Qden r)) with
      | Some v => Fin (- v)
      | None => Infinity true
      end
  end.

End Binary64.

(** [n * 1000] *)
Definition times_1000 (n : JSNumber) : JSNumber :=
  match n with
  | NaN => NaN
  | Fin q => Binary64.round (q * (1000 # 1))
  | Infinity s => Infinity s
  end.

Module StringToNumber.

(** White space and line terminators among the code points up to 255
    (a header value is a byte string): TAB, LF, VT, FF, CR, SP, NBSP. *)
Definition is_ws (c : ascii) : bool :=
  let n := nat_of_ascii c in
  ((n =? 9) || (n =? 10) || (n =? 11) || (n =? 12) || (n =? 13) || (n =? 32)
   || (n =? 160))%nat.

Fixpoint drop_ws (l : list ascii) : list ascii :=
  match l with
  | c :: r => if is_ws c then drop_ws r else l
  | [] => []
  end.

Definition trim (l : list ascii) : list ascii :=
  rev (drop_ws (rev (drop_ws l))).

(** Value of a digit in the given base (2, 8, 10 or 16). *)
Definition digit_val (base : Z) (c : ascii) : option Z :=
  let n := Z.of_nat (nat_of_ascii c) in
  let v :=
    if (48 <=? n)%Z && (n <=? 57)%Z then Some (n - 48)%Z
    else if (97 <=? n)%Z && (n <=? 102)%Z then Some (n - 87)%Z
    else if (65 <=? n)%Z && (n <=? 70)%Z then Some (n - 55)%Z
    else None in
  match v with
  | Some d => if (d <? base)%Z then Some d else None
  | None => None
  end.

(** The whole list read as a numeral in [base]; [None] when some
    character is not a digit of that base. *)
Fixpoint digits_val (base acc : Z) (l : list ascii) : option Z :=
  match l with
  | [] => Some acc
  | c :: r =>
      match digit_val base c with
      | Some d => digits_val base (acc * base + d)%Z r
      | None => None
      end
  end.

(** Longest prefix of decimal digits, and the rest. *)
Fixpoint span_digits (l : list ascii) : list ascii * list ascii :=
  match l with
  | c :: r =>
      match digit_val 10 c with
      | Some _ => let (d, rest) := span_digits r in (c :: d, rest)
      | None => ([], l)
      end
  | [] => ([], [])
  end.

Definition is_nil {A} (l : list A) : bool :=
  match l with [] => true | _ => false end.

(** [0x..], [0o..], [0b..]: at least one digit, no sign. *)
Definition non_decimal (base : Z) (ds : list ascii) : JSNumber :=
  if is_nil ds then NaN
  else match digits_val base 0 ds with
       | Some v => Binary64.round (inject_Z v)
       | None => NaN
       end.

(** ExponentPart: [e] or [E], an optional sign, at least one digit,
    up to the end of the string.  No exponent part counts as 0. *)
Definition exponent (l : list ascii) : option Z :=
  match l with
  | [] => Some 0%Z
  | c :: r =>
      if (Ascii.eqb c "e" || Ascii.eqb c "E")%bool then
        let '(neg, ds) :=
          match r with
          | "-"%char :: ds => (true, ds)
          | "+"%char :: ds => (false, ds)
          | _ => (false, r)
          end in
        if is_nil ds then None
        else match digits_val 10 0 ds with
             | Some v => Some (if neg then - v else v)%Z
             | None => None
             end
      else None
  end.

(** StrUnsignedDecimalLiteral: [Infinity], or digits with an optional
    fraction and an optional exponent; the number is the binary64 value
    nearest to the decimal one. *)
Definition unsigned_decimal (neg : bool) (l : list ascii) : JSNumber :=
  if String.eqb (string_of_list_ascii l) "Infinity" then Infinity neg
  else
    let (ip, r1) := span_digits l in
    let (fp, r2) :=
      match r1 with
      | "."%char :: r => span_digits r
      | _ => ([], r1)
      end in
    if is_nil ip && is_nil fp then NaN
    else
      match digits_val 10 0 (ip ++ fp), exponent r2 with
      | Some m, Some e =>
          let m' := if neg then (- m)%Z else m in
          Binary64.round
            (inject_Z m' * Qpower (10 # 1) (e - Z.of_nat (List.length fp)))
      | _, _ => NaN
      end.

Definition of_chars (l : list ascii) : JSNumber :=
  match trim l with
  | [] => Fin 0
  | "0"%char :: x :: ds =>
      if (Ascii.eqb x "x" || Ascii.eqb x "X")%bool then non_decimal 16 ds
      else if (Ascii.eqb x "o" || Ascii.eqb x "O")%bool then non_decimal 8 ds
      else if (Ascii.eqb x "b" || Ascii.eqb x "B")%bool then non_decimal 2 ds
      else unsigned_decimal false ("0"%char :: x :: ds)
  | "-"%char :: r => unsigned_decimal true r
  | "+"%char :: r => unsigned_decimal false r
  | t => unsigned_decimal false t
  end.

End StringToNumber.

(** [Number(v)] for [v : string | null]: [Number(null)] is [+0]. *)
Definition Number (v : option string) : JSNumber :=
  match v with
  | None => Fin 0
  | Some s => StringToNumber.of_chars (list_ascii_of_string s)
  end.

(** The decimal numeral of a natural number: what [toString()] gives for
    a status, and the form of the delay in seconds of a [Retry-After]
    header. *)
Definition decimal (n : N) : string :=
  NilZero.string_of_uint (N.to_uint n).


(** [Number::toString]: the shortest decimal numeral that reads back as
    the same number, laid out with or without an exponent. *)
Module NumberToString.

Definition same (a b : JSNumber) : bool :=
  match a, b with
  | Fin p, Fin q => Qeq_bool p q
  | Infinity s, Infinity t => Bool.eqb s t
  | _, _ => false
  end.

Definition digits (z : Z) : string := decimal (Z.to_N z).

Definition ndigits (z : Z) : Z := Z.of_nat (String.length (digits z)).

(** The [n] with [10 ^ (n - 1) <= a / b < 10 ^ n], for positive [a], [b]. *)
Definition magnitude (a b : Z) : Z :=
  if (b <=? a)%Z then ndigits (a / b)
  else (1 - ndigits ((b + a - 1) / a - 1))%Z.

(** [a / b] times [10 ^ p], as a numerator and a denominator. *)
Definition shifted (a b p : Z) : Z * Z :=
  if (0 <=? p)%Z then ((a * 10 ^ p)%Z, b) else (a, (b * 10 ^ (- p))%Z).

(** Does [s * 10 ^ (n - k)] round to the number whose value is [a / b]? *)
Definition denotes (a b : Z) (n k s : Z) : bool :=
  let (num, den) := shifted s 1 (n - k) in
  same (Binary64.round (num # Z.to_pos den))
       (Binary64.round (a # Z.to_pos b)).

(** The integer [s] of [k] digits, if any, for which [s * 10 ^ (n - k)]
    denotes [a / b]; of two, the nearer to [a / b], and of two equally
    near, the even one. *)
Definition candidate (a b n k : Z) : option Z :=
  let (num, den) := shifted a b (k - n) in
  let lo := (num / den)%Z in
  let hi := (lo + 1)%Z in
  let r := (num - lo * den)%Z in
  let prefer_lo :=
    match (2 * r ?= den)%Z with
    | Lt => true
    | Gt => false
    | Eq => Z.even lo
    end in
  match denotes a b n k lo, denotes a b n k hi with
  | true, true => Some (if prefer_lo then lo else hi)
  | true, false => Some lo
  | false, true => Some hi
  | false, false => None
  end.

(** The least number of digits, from [k] on, that has a candidate; 17
    digits are enough for every binary64 value. *)
Fixpoint shortest (fuel : nat) (a b n k : Z) : Z * Z :=
  match fuel with
  | O => ((fst (shifted a b (k - n)) / snd (shifted a b (k - n)))%Z, k)
  | S fuel' =>
      match candidate a b n k with
      | Some s => (s, k)
      | None => shortest fuel' a b n (k + 1)%Z
      end
  end.

Fixpoint zeros (n : nat) : string :=
  match n with O => "" | S n' => String "0" (zeros n') end.

Definition take (n : nat) (s : string) : string := substring 0 n s.

Definition drop (n : nat) (s : string) : string :=
  substring n (String.length s - n) s.

(** The digits [ds] of [s] and the exponent [n], laid out: as an integer,
    with a point, with leading zeros, or with an exponent. *)
Definition layout (ds : string) (n : Z) : string :=
  let k := Z.of_nat (String.length ds) in
  (if (k <=? n)%Z && (n <=? 21)%Z then ds ++ zeros (Z.to_nat (n - k))
   else if (0 <? n)%Z && (n <=? 21)%Z then
     take (Z.to_nat n) ds ++ "." ++ drop (Z.to_nat n) ds
   else if (-6 <? n)%Z && (n <=? 0)%Z then
     "0." ++ zeros (Z.to_nat (- n)) ++ ds
   else
     let e := (n - 1)%Z in
     let exp := (if (e <? 0)%Z then "-" else "+") ++ digits (Z.abs e) in
     if (k =? 1)%Z then ds ++ "e" ++ exp
     else take 1 ds ++ "." ++ drop 1 ds ++ "e" ++ exp)%string.

(** A positive number [a / b]. *)
Definition of_positive (a b : Z) : string :=
  let n := magnitude a b in
  let (s, k) := shortest 17 a b n 1 in
  if (s =? 10 ^ k)%Z then layout "1" (n + 1) else layout (digits s) n.

Definition of_number (x : JSNumber) : string :=
  match x with
  | NaN => "NaN"
  | Infinity false => "Infinity"
  | Infinity true => "-Infinity"
  | Fin q =>
      match Qnum q with
      | Z0 => "0"
      | Zpos a => of_positive (Zpos a) (Zpos (Qden q))
      | Zneg a => ("-" ++ of_positive (Zpos a) (Zpos (Qden q)))%string
      end
  end.

End NumberToString.

(** ** The [Headers] class of the Fetch standard

    A header list in insertion order.  Names are compared without regard to
    ASCII case.  Names and values are taken to be valid (no forbidden
    bytes), so that no method throws, and values to be normalized (no
    leading or trailing white space), so that they are stored as given. *)

Module Headers.

Definition t : Type := list (string * string).

Definition lower_char (c : ascii) : ascii :=
  let n := nat_of_ascii c in
  if ((65 <=? n) && (n <=? 90))%nat then ascii_of_nat (n + 32) else c.

Fixpoint lower (s : string) : string :=
  match s with
  | EmptyString => EmptyString
  | String c r => String (lower_char c) (lower r)
  end.

Definition name_eqb (a b : string) : bool :=
  String.eqb (lower a) (lower b).

Definition contains (h : t) (name : string) : bool :=
  existsb (fun p => name_eqb (fst p) name) h.

(** [append]: one more header at the end of the list; headers of the
    same name that are already there stay. *)
Definition append (h : t) (name value : string) : t :=
  h ++ [(name, value)].

(** [get]: the values of all headers of that name, in order, joined by
    a comma and a space; [null] when there is none. *)
Definition get (h : t) (name : string) : option string :=
  match filter (fun p => name_eqb (fst p) name) h with
  | [] => None
  | hs => Some (String.concat ", " (map snd hs))
  end.

Fixpoint remove (h : t) (name : string) : t :=
  match h with
  | [] => []
  | p :: r => if name_eqb (fst p) name then remove r name
              else p :: remove r name
  end.

Fixpoint replace_first (h : t) (name value : string) : t :=
  match h with
  | [] => []
  | p :: r => if name_eqb (fst p) name then (fst p, value) :: remove r name
              else p :: replace_first r name value
  end.

(** [set]: the first header of that name takes the value and the others
    are removed; appended when there is none. *)
Definition set (h : t) (name value : string) : t :=
  if contains h name then replace_first h name value
  else append h name value.

(** [new Headers(init)] for a record [init], and [Object.entries(init)]
    fed to [append]: the entries in property order. *)
Definition append_all (h : t) (init : list (string * string)) : t :=
  fold_left (fun acc p => append acc (fst p) (snd p)) init h.

Definition create (init : list (string * string)) : t :=
  append_all [] init.

End Headers.

(** ** JSON values and JavaScript values *)

#[local] Set Warnings "-register-all".

Inductive JSONValue : Type :=
| JNull
| JBool (b : bool)
| JNumber (n : JSNumber)
| JString (s : string)
| JArray (items : list JSONValue)
| JObject (props : list (string * JSONValue)).

(** A JavaScript value as far as this program sees one: [undefined]
    ([None]) or a JSON value. *)
Definition JSValue : Type := option JSONValue.

Definition undefined : JSValue := None.

(** [if (v)] on a JSON value. *)
Definition json_truthy (v : JSONValue) : bool :=
  match v with
  | JNull => false
  | JBool b => b
  | JNumber n => number_truthy n
  | JString s => negb (String.eqb s "")
  | JArray _ | JObject _ => true
  end.

(** The errors this program throws, each with its [message]; the
    SpotifyError also with its [status]. *)
Inductive JSError : Type :=
| SpotifyError (message : string) (status : N)
| Error_ (message : string)
| TypeError (message : string)
| SyntaxError.

Definition is_SpotifyError (e : JSError) : bool :=
  match e with SpotifyError _ _ => true | _ => false end.

Fixpoint own_property (props : list (string * JSONValue)) (name : string)
  : JSValue :=
  match props with
  | [] => undefined
  | (k, v) :: r => if String.eqb k name then Some v else own_property r name
  end.

(** [v.name] where [name] is not a property of any built-in prototype:
    a TypeError on [undefined] and [null], the own property of an object,
    [undefined] on every other value. *)
Definition get_property (v : JSValue) (name : string) : JSError + JSValue :=
  match v with
  | None => inl (TypeError ("Cannot read properties of undefined (reading '" ++ name ++ "')"))
  | Some JNull => inl (TypeError ("Cannot read properties of null (reading '" ++ name ++ "')"))
  | Some (JObject props) => inr (own_property props name)
  | Some _ => inr undefined
  end.

Section Join.

Variable A : Type.
Variable item : A -> JSError + string.

(** [Array.prototype.join] with a comma: the strings of the elements,
    a comma before each but the first; the first error stops it. *)
Fixpoint join (first : bool) (l : list A) : JSError + string :=
  match l with
  | [] => inr ""
  | x :: r =>
      match item x, join false r with
      | inr a, inr b => inr ((if first then "" else ",") ++ a ++ b)%string
      | inl e, _ => inl e
      | _, inl e => inl e
      end
  end.

End Join.
Arguments join {A} _ _ _.

(** [ToString(v)] for a value made by [JSON.parse].  An array is joined
    with commas, [null] elements giving nothing.  An object has no
    callable method of its own, so the conversion goes through
    [Object.prototype]: it gives "[object Object]", unless the object has
    an own member named [toString], which hides the inherited method and
    leaves no way to a primitive value: a TypeError. *)
Fixpoint ToString (v : JSONValue) : JSError + string :=
  match v with
  | JNull => inr "null"
  | JBool true => inr "true"
  | JBool false => inr "false"
  | JNumber n => inr (NumberToString.of_number n)
  | JString s => inr s
  | JArray items =>
      join (fun x => match x with JNull => inr "" | _ => ToString x end)
        true items
  | JObject props =>
      match own_property props "toString" with
      | Some _ => inl (TypeError "Cannot convert object to primitive value")
      | None => inr "[object Object]"
      end
  end.

(** What [throw new SpotifyError(message, status)] throws.  The class
    passes [message] to the constructor of [Error], which stores
    [ToString(message)] unless [message] is [undefined]; an error made
    without a message has the empty string of [Error.prototype.message].
    When the conversion throws, that TypeError is what is thrown. *)
Definition new_SpotifyError (message : JSValue) (status : N) : JSError :=
  match message with
  | None => SpotifyError "" status
  | Some v =>
      match ToString v with
      | inr s => SpotifyError s status
      | inl e => e
      end
  end.

(** Induction on a JSON value, with the property at hand for the items
    of an array and for the members of an object. *)
Section JSONValueInduction.

Variable P : JSONValue -> Prop.
Hypothesis Hnull : P JNull.
Hypothesis Hbool : forall b, P (JBool b).
Hypothesis Hnumber : forall n, P (JNumber n).
Hypothesis Hstring : forall s, P (JString s).
Hypothesis Harray : forall items, Forall P items -> P (JArray items).
Hypothesis Hobject :
  forall props, Forall (fun p => P (snd p)) props -> P (JObject props).

Fixpoint JSONValue_induction (v : JSONValue) : P v :=
  match v with
  | JNull => Hnull
  | JBool b => Hbool b
  | JNumber n => Hnumber n
  | JString s => Hstring s
  | JArray items =>
      Harray items
        ((fix all (l : list JSONValue) : Forall P l :=
            match l with
            | [] => Forall_nil P
            | x :: r => Forall_cons x (JSONValue_induction x) (all r)
            end) items)
  | JObject props =>
      Hobject props
        ((fix all (l : list (string * JSONValue))
            : Forall (fun p => P (snd p)) l :=
            match l with
            | [] => Forall_nil _
            | p :: r =>
                Forall_cons (P := fun p => P (snd p)) p
                  (JSONValue_induction (snd p)) (all r)
            end) props)
  end.

End JSONValueInduction.

(** ** Requests and responses *)

Inductive HTTPMethod : Type := GET | POST | PUT | DELETE | PATCH.

Module URL.
(** [href] without the query, and the [search] component. *)
Record t : Type := { base : string; search : string }.
Definition create (s : string) : t := {| base := s; search := "" |}.
Definition set_search (u : t) (q : string) : t :=
  {| base := base u; search := q |}.
End URL.

Module Request.
(** The arguments of one call of the global [fetch(url, init)]. *)
Record t : Type := {
  url : URL.t;
  method : option HTTPMethod;
  headers : Headers.t;
  body : option string
}.
End Request.

Module Response.
(** [body] is [None] when [res.body] is [null]; otherwise the text the
    body stream yields. *)
Record t : Type := {
  status : N;
  headers : Headers.t;
  body : option string
}.

(** [res.ok]: the status is in the range 200 to 299. *)
Definition ok (r : t) : bool :=
  ((200 <=? status r) && (status r <=? 299))%N.

(** [res.status.toString()] *)
Definition status_toString (r : t) : string :=
  decimal (status r).
End Response.

(** ** Options *)

Module FetchOpts.
(** [headers] is a record of header names and values, in property
    order; [body] is a string body. *)
Record t (SearchParams : Type) : Type := {
  method : option HTTPMethod;
  json : option JSONValue;
  query : option SearchParams;
  headers : option (list (string * string));
  body : option string
}.
Arguments method {SearchParams} _.
Arguments json {SearchParams} _.
Arguments query {SearchParams} _.
Arguments headers {SearchParams} _.
Arguments body {SearchParams} _.

(** The default [{}]. *)
Definition empty {SearchParams : Type} : t SearchParams :=
  {| method := None; json := None; query := None; headers := None;
     body := None |}.
End FetchOpts.

Inductive ExpectedResponse : Type := json | void.

Module SpotifyClientOpts.
(** A missing property is [None]. *)
Record t : Type := {
  retryTimesOn5xx : option Z;
  retryDelayOn5xx : option Z;
  retryOnRateLimit : option bool
}.

(** The default value of the constructor's parameter. *)
Definition default : t :=
  {| retryTimesOn5xx := Some 0%Z; retryDelayOn5xx := Some 0%Z;
     retryOnRateLimit := Some false |}.
End SpotifyClientOpts.

(** [if (n)] on an optional integer: false for [undefined] and 0. *)
Definition int_truthy (n : option Z) : bool :=
  match n with
  | Some z => negb (z =? 0)%Z
  | None => false
  end.

Definition flag_truthy (b : option bool) : bool :=
  match b with
  | Some x => x
  | None => false
  end.

(** [n--] *)
Definition decrement (n : option Z) : option Z :=
  match n with
  | Some z => Some (z - 1)%Z
  | None => None
  end.

(** ** The platform and the token provider *)

(** What the executor takes from its environment: the global [fetch],
    [JSON.parse] ([None] for a SyntaxError), [JSON.stringify], and the
    helper [toQueryString] of [shared/mod.ts] with its argument type.
    [W] is the state of the outside world. *)
Class Platform (W : Type) : Type := {
  SearchParams : Type;
  toQueryString : SearchParams -> string;
  JSON_parse : string -> option JSONValue;
  JSON_stringify : JSONValue -> string;
  global_fetch : Request.t -> W -> Response.t * W
}.

Inductive TokenType : Type := Bearer.

Record AccessResponse : Type := {
  access_token : string;
  token_type : TokenType;
  expires_in : Z
}.

(** An object passed as [authProvider], by the methods it has.
    [getAccessToken] and [refresh] are the members of the interface
    [IAuthProvider]; [getToken] and [refreshToken] are the methods the
    client calls. *)
Record ProviderObject (W : Type) : Type := {
  getAccessToken : option (option bool -> W -> string * W);
  refresh : option (W -> AccessResponse * W);
  getToken : option (W -> string * W);
  refreshToken : option (W -> string * W)
}.
Arguments getAccessToken {W} _.
Arguments refresh {W} _.
Arguments getToken {W} _.
Arguments refreshToken {W} _.

Definition is_some {A} (o : option A) : bool :=
  match o with Some _ => true | None => false end.

(** The object has every member of [interface IAuthProvider]. *)
Definition implements_IAuthProvider {W} (o : ProviderObject W) : bool :=
  is_some (getAccessToken o) && is_some (refresh o).

(** The object has the two capabilities of a dynamic token source. *)
Definition is_token_source {W} (o : ProviderObject W) : bool :=
  is_some (getToken o) && is_some (refreshToken o).

(** [IAuthProvider | string] *)
Inductive AuthProvider (W : Type) : Type :=
| TokenString (token : string)
| ProviderObj (o : ProviderObject W).
Arguments TokenString {W} _.
Arguments ProviderObj {W} _.

(** [typeof a === "object"] *)
Definition is_object {W} (a : AuthProvider W) : bool :=
  match a with
  | TokenString _ => false
  | ProviderObj _ => true
  end.

Record SpotifyClient (W : Type) : Type := {
  authProvider : AuthProvider W;
  opts : SpotifyClientOpts.t
}.
Arguments authProvider {W} _.
Arguments opts {W} _.

Definition BASE_HEADERS : list (string * string) :=
  [("Content-Type", "application/json"); ("Accept", "application/json")].

Definition setAuthProvider {W} (c : SpotifyClient W) (a : AuthProvider W)
  : SpotifyClient W :=
  {| authProvider := a; opts := opts c |}.

(** ** The executor *)

(** What one logical call does to the outside world, in order. *)
Inductive Event : Type :=
| CallGetToken (token : string)           (* authProvider.getToken() *)
| CallRefreshToken (token : string)       (* await authProvider.refreshToken() *)
| CallFetch (req : Request.t) (res : Response.t)  (* one physical attempt *)
| SetTimeout (ms : JSNumber)              (* await of a timer *)
| ResText                                 (* await res.text() *)
| ResJson                                 (* await res.json() *)
| BodyCancel.                             (* await res.body.cancel() *)

(** How an asynchronous function ends: it returns, it throws, or the
    model's fuel ran out before it did. *)
Inductive Completion (A : Type) : Type :=
| Return (a : A)
| Throw (e : JSError)
| OutOfFuel.
Arguments Return {A} _.
Arguments Throw {A} _.
Arguments OutOfFuel {A}.

(** The mutable variables that the closure [call] captures. *)
Record Locals : Type := {
  _headers : Headers.t;
  isTriedRefreshToken : bool;
  retryTimesOn5xx : option Z;
  accessToken : string
}.

(** Line 178: [_headers.set("Authorization", "Bearer " + accessToken)]. *)
Definition authorize (st : Locals) : Locals :=
  {| _headers := Headers.set (_headers st) "Authorization"
                   ("Bearer " ++ accessToken st);
     isTriedRefreshToken := isTriedRefreshToken st;
     retryTimesOn5xx := retryTimesOn5xx st; accessToken := accessToken st |}.

(** [accessToken = tok; isTriedRefreshToken = true] *)
Definition refreshed (st : Locals) (tok : string) : Locals :=
  {| _headers := _headers st; isTriedRefreshToken := true;
     retryTimesOn5xx := retryTimesOn5xx st; accessToken := tok |}.

(** [retryTimesOn5xx--] *)
Definition consumed_retry (st : Locals) : Locals :=
  {| _headers := _headers st; isTriedRefreshToken := isTriedRefreshToken st;
     retryTimesOn5xx := decrement (retryTimesOn5xx st);
     accessToken := accessToken st |}.

(** The result of running [call]: its completion, the captured variables
    and the world when it ended, and the events it produced. *)
Record Run (A W : Type) : Type := {
  completion : Completion A;
  locals : Locals;
  world : W;
  trace : list Event
}.
Arguments completion {A W} _.
Arguments locals {A W} _.
Arguments world {A W} _.
Arguments trace {A W} _.

(** The events [evs] happened, then the run [r]. *)
Definition after {A W} (evs : list Event) (r : Run A W) : Run A W :=
  {| completion := completion r; locals := locals r; world := world r;
     trace := evs ++ trace r |}.

Definition finish {A W} (c : Completion A) (st : Locals) (w : W)
  (evs : list Event) : Run A W :=
  {| completion := c; locals := st; world := w; trace := evs |}.

(** [(JSON.parse(text) as SpotifyRegularError).error.message], the body
    of the [try] block: the value, or the error thrown. *)
Definition envelope_message (parse : string -> option JSONValue)
  (text : string) : JSError + JSValue :=
  match parse text with
  | None => inl SyntaxError
  | Some v =>
      match get_property (Some v) "error" with
      | inl e => inl e
      | inr err => get_property err "message"
      end
  end.

(** Lines 216 to 227: the variable [message] and the events of its
    computation. *)
Definition extract_message (parse : string -> option JSONValue)
  (res : Response.t) : JSValue * list Event :=
  match Response.body res with
  | None => (Some (JString "null"), [])
  | Some text =>
      (match envelope_message parse text with
       | inr m => m
       | inl _ => Some (JString text)
       end, [ResText])
  end.

(** [typeof a === "object"], with the object it then is. *)
Definition as_object {W} (a : AuthProvider W) : option (ProviderObject W) :=
  match a with
  | TokenString _ => None
  | ProviderObj o => Some o
  end.

(** Lines 208 to 210: the timer before a server-error retry. *)
Definition delay_events (retryDelayOn5xx : option Z) : list Event :=
  match retryDelayOn5xx with
  | Some d => if negb (d =? 0)%Z then [SetTimeout (Fin (inject_Z d))] else []
  | None => []
  end.

Section Executor.

Context {W : Type} `{Platform W}.

Variable this : SpotifyClient W.
(** The constants that [call] captures. *)
Variable url : URL.t.
Variable method : option HTTPMethod.
Variable _body : option string.

(** Lines 180 to 184: the arguments of the global [fetch]. *)
Definition request (st : Locals) : Request.t :=
  {| Request.url := url; Request.method := method;
     Request.headers := _headers st; Request.body := _body |}.

(** The closure [call] of [fetch], lines 177 to 233.  Each [if] of the
    source that ends in [return call()] is one branch here; the two
    nested tests of the rate-limit branch are one conjunction, since
    reading the header has no effect. *)
Fixpoint call (fuel : nat) (st : Locals) (w : W) : Run Response.t W :=
  match fuel with
  | O => finish OutOfFuel st w []
  | S fuel' =>
      let st := authorize st in
      let req := request st in
      let (res, w) := global_fetch req w in
      after [CallFetch req res]
      (if Response.ok res then finish (Return res) st w []
       else
         match (if (Response.status res =? 401)%N
                   && negb (isTriedRefreshToken st)
                then as_object (authProvider this) else None) with
         | Some o =>
             match refreshToken o with
             | Some refresh_fn =>
                 let (tok, w) := refresh_fn w in
                 after [CallRefreshToken tok]
                   (call fuel' (refreshed st tok) w)
             | None =>
                 finish (Throw (TypeError
                   "this.authProvider.refreshToken is not a function"))
                   st w []
             end
         | None =>
             let retryAfter :=
               Number (Headers.get (Response.headers res) "Retry-After") in
             if (Response.status res =? 429)%N
                && flag_truthy (SpotifyClientOpts.retryOnRateLimit (opts this))
                && number_truthy retryAfter
             then
               after [SetTimeout (times_1000 retryAfter)] (call fuel' st w)
             else if String.prefix "5" (Response.status_toString res)
                     && int_truthy (retryTimesOn5xx st)
             then
               after (delay_events
                        (SpotifyClientOpts.retryDelayOn5xx (opts this)))
                 (call fuel' (consumed_retry st) w)
             else
               let (message, evs) := extract_message JSON_parse res in
               finish (Throw (new_SpotifyError message (Response.status res)))
                 st w evs
         end)
  end.

(** The condition of lines 188 to 191 fails. *)
Definition no_refresh (st : Locals) (res : Response.t) : bool :=
  negb ((Response.status res =? 401)%N
        && is_object (authProvider this)
        && negb (isTriedRefreshToken st)).

(** The conditions of lines 197 and 201 hold. *)
Definition rate_limited (res : Response.t) : bool :=
  (Response.status res =? 429)%N
  && flag_truthy (SpotifyClientOpts.retryOnRateLimit (opts this))
  && number_truthy (Number (Headers.get (Response.headers res) "Retry-After")).

(** The condition of line 207 holds. *)
Definition server_error_retry (st : Locals) (res : Response.t) : bool :=
  String.prefix "5" (Response.status_toString res)
  && int_truthy (retryTimesOn5xx st).

(** Lines 173 to 175: the token the call starts with. *)
Definition initial_token (w : W) : Completion string * W * list Event :=
  match authProvider this with
  | ProviderObj o =>
      match getToken o with
      | Some get_fn =>
          let (tok, w) := get_fn w in (Return tok, w, [CallGetToken tok])
      | None =>
          (Throw (TypeError "this.authProvider.getToken is not a function"),
           w, [])
      end
  | TokenString s => (Return s, w, [])
  end.

End Executor.

(** The result of one logical call: how [fetch] ends, the response that
    [call] returned to it (line 235) if it did, the world and the events. *)
Record Outcome (W : Type) : Type := {
  result : Completion (option JSONValue);
  response : option Response.t;
  final_world : W;
  events : list Event
}.
Arguments result {W} _.
Arguments response {W} _.
Arguments final_world {W} _.
Arguments events {W} _.

Section Fetch.

Context {W : Type} `{Platform W}.

(** Lines 157 to 160. *)
Definition request_url (baseURL : string) (query : option SearchParams)
  : URL.t :=
  let url := URL.create ("https://api.spotify.com/v1" ++ baseURL) in
  match query with
  | Some q => URL.set_search url (toQueryString q)
  | None => url
  end.

(** Line 162: [body ? body : json ? JSON.stringify(json) : undefined]. *)
Definition request_body (body : option string) (json : option JSONValue)
  : option string :=
  match body with
  | Some b =>
      if negb (String.eqb b "") then Some b
      else match json with
           | Some j => if json_truthy j then Some (JSON_stringify j) else None
           | None => None
           end
  | None =>
      match json with
      | Some j => if json_truthy j then Some (JSON_stringify j) else None
      | None => None
      end
  end.

(** Lines 163 to 168. *)
Definition request_headers (headers : option (list (string * string)))
  : Headers.t :=
  let _headers := Headers.create BASE_HEADERS in
  match headers with
  | Some hs => Headers.append_all _headers hs
  | None => _headers
  end.

(** Lines 237 to 243: what [fetch] does with the response of [call]. *)
Definition handle_response (responseType : ExpectedResponse)
  (res : Response.t) : Completion (option JSONValue) * list Event :=
  match responseType with
  | json =>
      match Response.body res with
      | None => (Throw (Error_ "Body not found"), [])
      | Some text =>
          (match JSON_parse text with
           | Some v => Return (Some v)
           | None => Throw SyntaxError
           end, [ResJson])
      end
  | void =>
      (Return None,
       match Response.body res with
       | Some _ => [BodyCancel]
       | None => []
       end)
  end.

(** [SpotifyClient.fetch], lines 150 to 244. *)
Definition fetch (this : SpotifyClient W) (baseURL : string)
  (responseType : ExpectedResponse) (o : FetchOpts.t SearchParams)
  (fuel : nat) (w : W) : Outcome W :=
  let url := request_url baseURL (FetchOpts.query o) in
  let _body := request_body (FetchOpts.body o) (FetchOpts.json o) in
  let _headers := request_headers (FetchOpts.headers o) in
  match initial_token this w with
  | (Return accessToken, w, evs0) =>
      let st := {| _headers := _headers; isTriedRefreshToken := false;
                   retryTimesOn5xx :=
                     SpotifyClientOpts.retryTimesOn5xx (opts this);
                   accessToken := accessToken |} in
      let r := call this url (FetchOpts.method o) _body fuel st w in
      match completion r with
      | Return res =>
          let (c, evs) := handle_response responseType res in
          {| result := c; response := Some res; final_world := world r;
             events := evs0 ++ trace r ++ evs |}
      | Throw e =>
          {| result := Throw e; response := None; final_world := world r;
             events := evs0 ++ trace r |}
      | OutOfFuel =>
          {| result := OutOfFuel; response := None; final_world := world r;
             events := evs0 ++ trace r |}
      end
  | (Throw e, w, evs0) =>
      {| result := Throw e; response := None; final_world := w;
         events := evs0 |}
  | (OutOfFuel, w, evs0) =>
      {| result := OutOfFuel; response := None; final_world := w;
         events := evs0 |}
  end.

End Fetch.

(** ** Reading traces *)

Definition is_attempt (e : Event) : bool :=
  match e with CallFetch _ _ => true | _ => false end.

Definition is_refresh (e : Event) : bool :=
  match e with CallRefreshToken _ => true | _ => false end.

Definition is_getToken (e : Event) : bool :=
  match e with CallGetToken _ => true | _ => false end.

(** Number of physical attempts, of [refreshToken()] calls and of
    [getToken()] calls in a trace. *)
Definition attempts (evs : list Event) : nat :=
  List.length (filter is_attempt evs).

Definition refresh_calls (evs : list Event) : nat :=
  List.length (filter is_refresh evs).

Definition getToken_calls (evs : list Event) : nat :=
  List.length (filter is_getToken evs).

(** A trace without the payload of its attempts. *)
Inductive Mark : Type :=
| Attempt
| Timer (ms : JSNumber)
| TokenRead
| TokenRefresh
| BodyRead
| BodyCancelled.

Definition mark (e : Event) : Mark :=
  match e with
  | CallGetToken _ => TokenRead
  | CallRefreshToken _ => TokenRefresh
  | CallFetch _ _ => Attempt
  | SetTimeout ms => Timer ms
  | ResText | ResJson => BodyRead
  | BodyCancel => BodyCancelled
  end.

(** The requests of the physical attempts, in order. *)
Fixpoint requests (evs : list Event) : list Request.t :=
  match evs with
  | [] => []
  | CallFetch req _ :: r => req :: requests r
  | _ :: r => requests r
  end.

(** Body streams.  A response with a body opens a stream; reading the
    body or cancelling it closes the stream.  [streams_closed open evs]:
    along [evs], starting with a stream open or not, no attempt is made and
    the trace does not end while a stream is open. *)
Fixpoint streams_closed (open : bool) (evs : list Event) : bool :=
  match evs with
  | [] => negb open
  | CallFetch _ res :: r =>
      negb open && streams_closed (is_some (Response.body res)) r
  | ResText :: r | ResJson :: r | BodyCancel :: r => streams_closed false r
  | _ :: r => streams_closed open r
  end.

(** The token is resolved afresh before every attempt: each attempt comes
    after a [getToken()] or [refreshToken()] call made since the attempt
    before it. *)
Fixpoint token_resolved_before_each_attempt (resolved : bool)
  (evs : list Event) : bool :=
  match evs with
  | [] => true
  | CallGetToken _ :: r | CallRefreshToken _ :: r =>
      token_resolved_before_each_attempt true r
  | CallFetch _ _ :: r =>
      resolved && token_resolved_before_each_attempt false r
  | _ :: r => token_resolved_before_each_attempt resolved r
  end.

(** Every attempt carries the bearer token that the call holds: [tok] at
    the start ([None] while the call holds no token yet), then the result
    of the latest [getToken()] or [refreshToken()] call. *)
Fixpoint attempts_carry_token (tok : option string) (evs : list Event) : bool :=
  match evs with
  | [] => true
  | CallGetToken t :: r | CallRefreshToken t :: r =>
      attempts_carry_token (Some t) r
  | CallFetch req _ :: r =>
      match tok, Headers.get (Request.headers req) "Authorization" with
      | Some t, Some v => String.eqb v ("Bearer " ++ t)
      | _, _ => false
      end && attempts_carry_token tok r
  | _ :: r => attempts_carry_token tok r
  end.

(** The token a call holds before it asks its provider: the string
    itself when [authProvider] is a string. *)
Definition held_token {W} (a : AuthProvider W) : option string :=
  match a with
  | TokenString s => Some s
  | ProviderObj _ => None
  end.

(** Line 173 to 175 can produce a token: [authProvider] is a string or an
    object with a [getToken] method. *)
Definition resolves_token {W} (a : AuthProvider W) : bool :=
  match a with
  | TokenString _ => true
  | ProviderObj o => is_some (getToken o)
  end.


(** ** The error message as the specification words it

    The body text "parses as the error envelope" when it is the JSON text
    of an object whose [error] member is an object with a string
    [message]. *)
Definition error_envelope (v : JSONValue) : option string :=
  match v with
  | JObject props =>
      match own_property props "error" with
      | Some (JObject e) =>
          match own_property e "message" with
          | Some (JString m) => Some m
          | _ => None
          end
      | _ => None
      end
  | _ => None
  end.

(** The member [error] of a parsed body when it is neither [undefined]
    nor [null]: what [.message] can be read from without a TypeError. *)
Definition error_member (v : JSONValue) : option JSONValue :=
  match v with
  | JObject props =>
      match own_property props "error" with
      | Some JNull => None
      | other => other
      end
  | _ => None
  end.

(** The property [message] of such a member: [undefined] when it has
    none. *)
Definition message_member (e : JSONValue) : JSValue :=
  match e with
  | JObject props => own_property props "message"
  | _ => undefined
  end.

(** "null" without a body, the envelope's message when the body parses as
    the envelope, the raw text otherwise. *)
Definition specified_message (parse : string -> option JSONValue)
  (res : Response.t) : string :=
  match Response.body res with
  | None => "null"
  | Some text =>
      match parse text with
      | Some v =>
          match error_envelope v with
          | Some m => m
          | None => text
          end
      | None => text
      end
  end.

(** ** A simulated platform for the examples

    The transport answers from a script: each entry is the response to
    one attempt, with the token that the token source switched to while
    that attempt was in flight, if it did.  When the script is over the
    transport repeats [fallback]. *)

Module Sim.

Record World : Type := {
  script : list (Response.t * option string);
  fallback : Response.t;
  token : string
}.

Definition send (_ : Request.t) (w : World) : Response.t * World :=
  match script w with
  | (res, swap) :: rest =>
      (res, {| script := rest; fallback := fallback w;
               token := match swap with Some t => t | None => token w end |})
  | [] => (fallback w, w)
  end.

Definition dq : ascii := ascii_of_nat 34.
Definition backslash : ascii := ascii_of_nat 92.

(** [s] between double quotes. *)
Definition quoted (s : string) : string :=
  String dq (s ++ String dq EmptyString).

Definition json_ws (c : ascii) : bool :=
  let n := nat_of_ascii c in
  ((n =? 9) || (n =? 10) || (n =? 13) || (n =? 32))%nat.

Fixpoint skip_ws (l : list ascii) : list ascii :=
  match l with
  | c :: r => if json_ws c then skip_ws r else l
  | [] => []
  end.

Definition unescape (c : ascii) : option ascii :=
  if Ascii.eqb c dq then Some dq
  else if Ascii.eqb c backslash then Some backslash
  else if Ascii.eqb c "/" then Some "/"%char
  else if Ascii.eqb c "b" then Some (ascii_of_nat 8)
  else if Ascii.eqb c "f" then Some (ascii_of_nat 12)
  else if Ascii.eqb c "n" then Some (ascii_of_nat 10)
  else if Ascii.eqb c "r" then Some (ascii_of_nat 13)
  else if Ascii.eqb c "t" then Some (ascii_of_nat 9)
  else None.

(** The code unit written with four hexadecimal digits after [\u]; only
    code units below 256 can be part of a string here. *)
Definition code_unit (a b c d : ascii) : option ascii :=
  match StringToNumber.digits_val 16 0 [a; b; c; d] with
  | Some v => if (v <? 256)%Z then Some (ascii_of_nat (Z.to_nat v)) else None
  | None => None
  end.

(** The characters of a string literal after its opening quote, up to
    the closing quote. *)
Fixpoint string_body (l acc : list ascii) : option (string * list ascii) :=
  match l with
  | [] => None
  | c :: r =>
      if Ascii.eqb c dq then Some (string_of_list_ascii (rev acc), r)
      else if Ascii.eqb c backslash then
        match r with
        | "u"%char :: h1 :: h2 :: h3 :: h4 :: r' =>
            match code_unit h1 h2 h3 h4 with
            | Some x => string_body r' (x :: acc)
            | None => None
            end
        | e :: r' =>
            match unescape e with
            | Some x => string_body r' (x :: acc)
            | None => None
            end
        | [] => None
        end
      else if (nat_of_ascii c <? 32)%nat then None
      else string_body r (c :: acc)
  end.

Definition is_digit (c : ascii) : bool :=
  is_some (StringToNumber.digit_val 10 c).

(** The grammar of a JSON number: an optional minus sign; an integer
    part without a leading zero; an optional fraction, a point and at
    least one digit; an optional exponent, [e] or [E], an optional sign
    and at least one digit.  The result is the lexeme without its minus
    sign, and the rest. *)
Definition integer_part (l : list ascii) : option (list ascii * list ascii) :=
  match l with
  | "0"%char :: r => Some (["0"%char], r)
  | _ =>
      match StringToNumber.span_digits l with
      | ([], _) => None
      | (ds, r) => Some (ds, r)
      end
  end.

Definition fraction_part (l : list ascii) : option (list ascii * list ascii) :=
  match l with
  | "."%char :: r =>
      match StringToNumber.span_digits r with
      | ([], _) => None
      | (ds, r') => Some ("."%char :: ds, r')
      end
  | _ => Some ([], l)
  end.

Definition exponent_part (l : list ascii) : option (list ascii * list ascii) :=
  match l with
  | c :: r =>
      if (Ascii.eqb c "e" || Ascii.eqb c "E")%bool then
        let (sign, r1) :=
          match r with
          | "-"%char :: x => (["-"%char], x)
          | "+"%char :: x => (["+"%char], x)
          | _ => ([], r)
          end in
        match StringToNumber.span_digits r1 with
        | ([], _) => None
        | (ds, r2) => Some (c :: sign ++ ds, r2)
        end
      else Some ([], l)
  | [] => Some ([], [])
  end.

Definition negate (n : JSNumber) : JSNumber :=
  match n with
  | NaN => NaN
  | Fin q => Fin (- q)%Q
  | Infinity s => Infinity (negb s)
  end.

Definition number (l : list ascii) : option (JSONValue * list ascii) :=
  let (neg, l1) :=
    match l with
    | "-"%char :: r => (true, r)
    | _ => (false, l)
    end in
  match integer_part l1 with
  | Some (ip, r1) =>
      match fraction_part r1 with
      | Some (fp, r2) =>
          match exponent_part r2 with
          | Some (ep, r3) =>
              let n := StringToNumber.unsigned_decimal false (ip ++ fp ++ ep) in
              Some (JNumber (if neg then negate n else n), r3)
          | None => None
          end
      | None => None
      end
  | None => None
  end.

(** A later member of the same name replaces an earlier one. *)
Fixpoint put (props : list (string * JSONValue)) (k : string) (v : JSONValue)
  : list (string * JSONValue) :=
  match props with
  | [] => [(k, v)]
  | (k', v') :: r => if String.eqb k' k then (k, v) :: r
                     else (k', v') :: put r k v
  end.

Fixpoint value (fuel : nat) (l : list ascii) : option (JSONValue * list ascii) :=
  match fuel with
  | O => None
  | S fuel' =>
      match skip_ws l with
      | "{"%char :: r =>
          match skip_ws r with
          | "}"%char :: r' => Some (JObject [], r')
          | _ => members fuel' r []
          end
      | "["%char :: r =>
          match skip_ws r with
          | "]"%char :: r' => Some (JArray [], r')
          | _ => elements fuel' r []
          end
      | "t"%char :: "r"%char :: "u"%char :: "e"%char :: r =>
          Some (JBool true, r)
      | "f"%char :: "a"%char :: "l"%char :: "s"%char :: "e"%char :: r =>
          Some (JBool false, r)
      | "n"%char :: "u"%char :: "l"%char :: "l"%char :: r =>
          Some (JNull, r)
      | c :: r =>
          if Ascii.eqb c dq then
            match string_body r [] with
            | Some (s, r') => Some (JString s, r')
            | None => None
            end
          else number (c :: r)
      | [] => None
      end
  end
with members (fuel : nat) (l : list ascii) (acc : list (string * JSONValue))
  : option (JSONValue * list ascii) :=
  match fuel with
  | O => None
  | S fuel' =>
      match skip_ws l with
      | c :: r =>
          if Ascii.eqb c dq then
            match string_body r [] with
            | Some (k, r1) =>
                match skip_ws r1 with
                | ":"%char :: r2 =>
                    match value fuel' r2 with
                    | Some (v, r3) =>
                        match skip_ws r3 with
                        | ","%char :: r4 => members fuel' r4 (put acc k v)
                        | "}"%char :: r4 => Some (JObject (put acc k v), r4)
                        | _ => None
                        end
                    | None => None
                    end
                | _ => None
                end
            | None => None
            end
          else None
      | [] => None
      end
  end
with elements (fuel : nat) (l : list ascii) (acc : list JSONValue)
  : option (JSONValue * list ascii) :=
  match fuel with
  | O => None
  | S fuel' =>
      match value fuel' l with
      | Some (v, r) =>
          match skip_ws r with
          | ","%char :: r' => elements fuel' r' (acc ++ [v])
          | "]"%char :: r' => Some (JArray (acc ++ [v]), r')
          | _ => None
          end
      | None => None
      end
  end.

(** [JSON.parse]: one value, then only white space. *)
Definition parse (s : string) : option JSONValue :=
  let l := list_ascii_of_string s in
  match value (S (List.length l)) l with
  | Some (v, rest) =>
      match skip_ws rest with
      | [] => Some v
      | _ => None
      end
  | None => None
  end.

Definition hex_digit (n : nat) : ascii :=
  if (n <? 10)%nat then ascii_of_nat (48 + n) else ascii_of_nat (87 + n).

(** A character of a string, as [JSON.stringify] writes it: the quote,
    the backslash and the control characters are escaped. *)
Definition escape_char (c : ascii) : string :=
  let n := nat_of_ascii c in
  if (Ascii.eqb c dq || Ascii.eqb c backslash)%bool
  then String backslash (String c "")
  else if (n =? 8)%nat then String backslash "b"
  else if (n =? 9)%nat then String backslash "t"
  else if (n =? 10)%nat then String backslash "n"
  else if (n =? 12)%nat then String backslash "f"
  else if (n =? 13)%nat then String backslash "r"
  else if (n <? 32)%nat then
    String backslash
      (String "u" (String "0" (String "0"
         (String (hex_digit (n / 16)) (String (hex_digit (n mod 16)) "")))))
  else String c "".

Fixpoint escape (s : string) : string :=
  match s with
  | EmptyString => EmptyString
  | String c r => (escape_char c ++ escape r)%string
  end.

(** A finite number as [ToString] gives it; [null] for the others. *)
Definition number_text (n : JSNumber) : string :=
  match n with
  | Fin _ => NumberToString.of_number n
  | _ => "null"
  end.

Fixpoint stringify (v : JSONValue) : string :=
  match v with
  | JNull => "null"
  | JBool true => "true"
  | JBool false => "false"
  | JNumber n => number_text n
  | JString s => quoted (escape s)
  | JArray items => "[" ++ String.concat "," (map stringify items) ++ "]"
  | JObject props =>
      "{" ++ String.concat ","
               (map (fun p : string * JSONValue =>
                       let (k, x) := p in
                       (quoted (escape k) ++ ":" ++ stringify x)%string)
                  props)
          ++ "}"
  end.

(** Parameters as pairs, joined without any encoding. *)
Definition query_string (params : list (string * string)) : string :=
  String.concat "&" (map (fun p => (fst p ++ "=" ++ snd p)%string) params).

#[global] Instance platform : Platform World := {|
  SearchParams := list (string * string);
  toQueryString := query_string;
  JSON_parse := parse;
  JSON_stringify := stringify;
  global_fetch := send
|}.

(** A dynamic token source over the simulated world: [getToken] reads
    the current token, [refreshToken] replaces it by a new one. *)
Definition refresh_token (w : World) : string * World :=
  let t := (token w ++ "*")%string in
  (t, {| script := script w; fallback := fallback w; token := t |}).

Definition token_source : ProviderObject World :=
  {| getAccessToken := None; refresh := None;
     getToken := Some (fun w => (token w, w));
     refreshToken := Some refresh_token |}.

(** An object with the members of [IAuthProvider] and no other. *)
Definition auth_provider : ProviderObject World :=
  {| getAccessToken := Some (fun _ w => (token w, w));
     refresh := Some (fun w =>
       let (t, w') := refresh_token w in
       ({| access_token := t; token_type := Bearer; expires_in := 3600 |}, w'));
     getToken := None;
     refreshToken := None |}.

Definition respond (status : N) (headers : Headers.t) (body : option string)
  : Response.t :=
  {| Response.status := status; Response.headers := headers;
     Response.body := body |}.

Definition ok_empty : Response.t := respond 200 [] None.

Definition start (script : list (Response.t * option string))
  (fallback : Response.t) (token : string) : World :=
  {| Sim.script := script; Sim.fallback := fallback; Sim.token := token |}.

Definition client (a : AuthProvider World) (times delay : Z) (rate : bool)
  : SpotifyClient World :=
  {| authProvider := a;
     opts := {| SpotifyClientOpts.retryTimesOn5xx := Some times;
                SpotifyClientOpts.retryDelayOn5xx := Some delay;
                SpotifyClientOpts.retryOnRateLimit := Some rate |} |}.

End Sim.

(** A transport that gives the same answer to every attempt, and a token
    source whose tokens are constants. *)

Module Fixed.

Definition platform (res : Response.t) : Platform unit := {|
  SearchParams := list (string * string);
  toQueryString := Sim.query_string;
  JSON_parse := Sim.parse;
  JSON_stringify := Sim.stringify;
  global_fetch := fun _ w => (res, w)
|}.

Definition token_source : ProviderObject unit :=
  {| getAccessToken := None; refresh := None;
     getToken := Some (fun w => ("token", w));
     refreshToken := Some (fun w => ("fresh", w)) |}.

Definition client (a : AuthProvider unit) (times delay : Z) (rate : bool)
  : SpotifyClient unit :=
  {| authProvider := a;
     opts := {| SpotifyClientOpts.retryTimesOn5xx := Some times;
                SpotifyClientOpts.retryDelayOn5xx := Some delay;
                SpotifyClientOpts.retryOnRateLimit := Some rate |} |}.

End Fixed.

(** ** More readings of traces and requests *)

(** The responses of the physical attempts, in order. *)
Fixpoint responses (evs : list Event) : list Response.t :=
  match evs with
  | [] => []
  | CallFetch _ res :: r => res :: responses r
  | _ :: r => responses r
  end.

(** [res.body] is not [null]. *)
Definition has_body (res : Response.t) : bool :=
  is_some (Response.body res).

Definition is_timer (e : Event) : bool :=
  match e with SetTimeout _ => true | _ => false end.

Definition is_read (e : Event) : bool :=
  match e with ResText | ResJson => true | _ => false end.

Definition is_cancel (e : Event) : bool :=
  match e with BodyCancel => true | _ => false end.

(** Number of timers set, of body reads ([text()] or [json()]) and of
    body cancellations in a trace. *)
Definition timers (evs : list Event) : nat :=
  List.length (filter is_timer evs).

Definition body_reads (evs : list Event) : nat :=
  List.length (filter is_read evs).

Definition cancels (evs : list Event) : nat :=
  List.length (filter is_cancel evs).

(** The retry budget as a count: nothing for [undefined]. *)
Definition budget (n : option Z) : nat :=
  match n with
  | Some z => Z.to_nat z
  | None => 0
  end.

(** The budget is [undefined] or not negative. *)
Definition budget_ok (n : option Z) : bool :=
  match n with
  | Some z => (0 <=? z)%Z
  | None => true
  end.

(** One more attempt is possible through a token refresh: the provider is
    an object and no refresh was tried. *)
Definition refresh_room {W} (this : SpotifyClient W) (st : Locals) : nat :=
  if is_object (authProvider this) && negb (isTriedRefreshToken st)
  then 1 else 0.

(** The headers named [Authorization], whatever the case of the name. *)
Definition authorization_headers (h : Headers.t) : Headers.t :=
  filter (fun p => Headers.name_eqb (fst p) "Authorization") h.

(** What the requests of one logical call have in common: the URL, the
    method and the body that [call] captures, the headers [h] apart from
    [Authorization], and one [Authorization] header. *)
Definition request_like (url : URL.t) (method : option HTTPMethod)
  (_body : option string) (h : Headers.t) (req : Request.t) : Prop :=
  Request.url req = url
  /\ Request.method req = method
  /\ Request.body req = _body
  /\ Headers.remove (Request.headers req) "Authorization"
     = Headers.remove h "Authorization"
  /\ List.length (authorization_headers (Request.headers req)) = 1.

(** The responses after which the call made another attempt: all but
    the last. *)
Definition retried (evs : list Event) : list Response.t :=
  removelast (responses evs).

(** The stream that the response returned by [call] leaves open for
    result handling. *)
Definition left_open (c : Completion Response.t) : bool :=
  match c with
  | Return res => has_body res
  | _ => false
  end.

(** How a run can end with every response dealt with, when the
    provider answers: it returned, or it threw something other than a
    TypeError. *)
Definition settled {A} (c : Completion A) : bool :=
  match c with
  | Return _ => true
  | Throw (TypeError _) => false
  | Throw _ => true
  | OutOfFuel => false
  end.

(** A dynamic provider that can give a token and has no [refreshToken]. *)
Definition getter_only (token : string) : ProviderObject unit :=
  {| getAccessToken := None; refresh := None;
     getToken := Some (fun w => (token, w));
     refreshToken := None |}.

Section Requests.

Context {W : Type} `{Platform W}.

(** The captured variables when [call] is first called, lines 163 to
    175, for the token [tok]. *)
Definition initial_locals (this : SpotifyClient W)
  (o : FetchOpts.t SearchParams) (tok : string) : Locals :=
  {| _headers := request_headers (FetchOpts.headers o);
     isTriedRefreshToken := false;
     retryTimesOn5xx := SpotifyClientOpts.retryTimesOn5xx (opts this);
     accessToken := tok |}.

(** The request of an attempt made while the call holds the token [tok]:
    lines 157 to 162 and 178 to 184. *)
Definition attempt_request (baseURL : string) (o : FetchOpts.t SearchParams)
  (tok : string) : Request.t :=
  {| Request.url := request_url baseURL (FetchOpts.query o);
     Request.method := FetchOpts.method o;
     Request.headers :=
       Headers.set (request_headers (FetchOpts.headers o)) "Authorization"
         ("Bearer " ++ tok);
     Request.body := request_body (FetchOpts.body o) (FetchOpts.json o) |}.

End Requests.

(** ** Proof automation *)


(** One step of [call]: the goal is split along the branches of the
    source, with the equations of each branch in the context. *)
Ltac call_step this :=
  cbn [call];
  match goal with
  | |- context [global_fetch ?r ?w] =>
      let res := fresh "res" in
      let w' := fresh "w'" in
      let Hfetch := fresh "Hfetch" in
      destruct (global_fetch r w) as [res w'] eqn:Hfetch;
      let Hok := fresh "Hok" in
      destruct (Response.ok res) eqn:Hok;
      [ | match goal with
          | |- context [if ?c then as_object _ else None] =>
              let Hc := fresh "Hcond" in
              destruct c eqn:Hc;
              [ let o := fresh "o" in
                let Hauth := fresh "Hauth" in
                destruct (authProvider this) as [? | o] eqn:Hauth;
                cbn [as_object];
                [ | let f := fresh "f" in
                    let Hrf := fresh "Hrf" in
                    destruct (refreshToken o) as [f|] eqn:Hrf;
                    [ let tok := fresh "tok" in
                      let w'' := fresh "w''" in
                      let Hw := fresh "Hw" in
                      destruct (f w') as [tok w''] eqn:Hw | ] ]
              | ]
          end;
          try match goal with
          | |- context [if ?c then after [SetTimeout _] _ else _] =>
              let Hrl := fresh "Hrate" in
              destruct c eqn:Hrl;
              [ | match goal with
                  | |- context [if ?c2 then after (delay_events _) _ else _] =>
                      let Hse := fresh "Hserver" in
                      destruct c2 eqn:Hse;
                      [ | let m := fresh "message" in
                          let evs := fresh "evs" in
                          let Hm := fresh "Hmessage" in
                          destruct (extract_message JSON_parse res)
                            as [m evs] eqn:Hm ]
                  end ]
          end ]
  end.

(** In the goal of one branch, instantiate the induction hypothesis at the
    recursive call and bring in what the quiet events contribute. *)
Ltac use_IH IH fuel :=
  try match goal with
  | |- context [trace (call _ _ _ _ fuel ?s ?v)] =>
      specialize (IH s v);
      cbn [isTriedRefreshToken accessToken refreshed authorize consumed_retry]
        in IH
  end.

(** * Properties *)

(** ** Rounding to binary64 *)






(** [nearest_even n d] is an integer nearest to [n / d], the even one of
    two. *)
Lemma nearest_even_spec (n d : Z) :
  (0 < d)%Z ->
  let m := Binary64.nearest_even n d in
  (2 * Z.abs (n - m * d) <= d)%Z
  /\ ((2 * Z.abs (n - m * d) = d)%Z -> Z.even m = true).
Proof.
  intros Hd. cbv zeta. unfold Binary64.nearest_even.
  pose proof (Z.div_eucl_eq n d ltac:(lia)) as E.
  pose proof (Z.mod_pos_bound n d Hd) as B. unfold Z.modulo in B.
  destruct (Z.div_eucl n d) as [q r].
  destruct (Z.compare_spec (2 * r) d) as [C|C|C].
  - destruct (Z.even q) eqn:Ev.
    + split; [nia|auto].
    + split; [nia|]. intros _. rewrite Z.even_add, Ev. reflexivity.
  - split; [nia|nia].
  - split; [nia|nia].
Qed.

(** [ilog2 a d] is the exponent of the power of two at or below [a / d]. *)
Lemma ilog2_spec (a d : Z) :
  (0 < a)%Z -> (0 < d)%Z ->
  let k := Binary64.ilog2 a d in
  ((0 <= k)%Z -> (d * 2 ^ k <= a < d * 2 ^ (k + 1))%Z)
  /\ ((k < 0)%Z -> (d <= a * 2 ^ (- k) < 2 * d)%Z).
Proof.
  intros Ha Hd. cbv zeta. unfold Binary64.ilog2.
  pose proof (Z.log2_spec a Ha) as [La Ua].
  pose proof (Z.log2_spec d Hd) as [Ld Ud].
  pose proof (Z.log2_nonneg a) as Na. pose proof (Z.log2_nonneg d) as Nd.
  set (la := Z.log2 a) in *. set (ld := Z.log2 d) in *.
  rewrite !Z.pow_succ_r in * by lia.
  destruct (0 <=? la - ld)%Z eqn:E0.
  - apply Z.leb_le in E0.
    assert (Ela : (2 ^ la = 2 ^ ld * 2 ^ (la - ld))%Z).
    { rewrite <- Z.pow_add_r by lia. f_equal. lia. }
    assert (Hp : (0 < 2 ^ (la - ld))%Z) by (apply Z.pow_pos_nonneg; lia).
    destruct (d * 2 ^ (la - ld) <=? a)%Z eqn:E1.
    + apply Z.leb_le in E1. split; [|lia]. intros _.
      replace (la - ld + 1)%Z with (Z.succ (la - ld)) by lia.
      rewrite Z.pow_succ_r by lia. split; [lia|nia].
    + apply Z.leb_gt in E1. split.
      * intros Hk.
        replace (la - ld - 1 + 1)%Z with (la - ld)%Z by lia.
        split; [|lia].
        assert (Es : (2 ^ (la - ld) = 2 * 2 ^ (la - ld - 1))%Z).
        { rewrite <- Z.pow_succ_r by lia. f_equal. lia. }
        nia.
      * intros Hk. assert (Ek : (la - ld = 0)%Z) by lia.
        rewrite Ek in *. change (- (0 - 1))%Z with 1%Z.
        change (2 ^ 1)%Z with 2%Z. change (2 ^ 0)%Z with 1%Z in *.
        assert (la = ld) by lia. subst la. lia.
  - apply Z.leb_gt in E0.
    assert (Eld : (2 ^ ld = 2 ^ la * 2 ^ (- (la - ld)))%Z).
    { rewrite <- Z.pow_add_r by lia. f_equal. lia. }
    assert (Hp : (0 < 2 ^ (- (la - ld)))%Z) by (apply Z.pow_pos_nonneg; lia).
    destruct (d <=? a * 2 ^ (- (la - ld)))%Z eqn:E1.
    + apply Z.leb_le in E1. split; [lia|]. intros _. split; [lia|nia].
    + apply Z.leb_gt in E1. split; [lia|]. intros _.
      replace (- (la - ld - 1))%Z with (Z.succ (- (la - ld))) by lia.
      rewrite Z.pow_succ_r by lia. split; [nia|nia].
Qed.

Lemma nearest_even_bounds (n d b : Z) :
  (0 < d)%Z -> (0 <= n < d * b)%Z ->
  (0 <= Binary64.nearest_even n d <= b)%Z.
Proof.
  intros Hd Hn.
  destruct (nearest_even_spec n d Hd) as [Hs _]. cbv zeta in Hs.
  set (m := Binary64.nearest_even n d) in *. nia.
Qed.

(** The significand that [round_pos] computes has at most 53 bits, or is
    [2 ^ 53] (the next power of two). *)
Lemma significand_bounds (a d : Z) :
  (0 < a)%Z -> (0 < d)%Z ->
  let e := Z.max (Binary64.ilog2 a d - 52) (-1074) in
  let m := if (0 <=? e)%Z then Binary64.nearest_even a (d * 2 ^ e)
           else Binary64.nearest_even (a * 2 ^ (- e)) d in
  (0 <= m <= 2 ^ 53)%Z.
Proof.
  intros Ha Hd. cbv zeta.
  destruct (ilog2_spec a d Ha Hd) as [Hk0 Hk1]. cbv zeta in Hk0, Hk1.
  set (k := Binary64.ilog2 a d) in *.
  set (e := Z.max (k - 52) (-1074)).
  assert (He : (k - 52 <= e)%Z) by (unfold e; lia).
  destruct (0 <=? e)%Z eqn:E0.
  - apply Z.leb_le in E0.
    assert (Hp : (0 < 2 ^ e)%Z) by (apply Z.pow_pos_nonneg; lia).
    apply nearest_even_bounds; [nia|]. split; [lia|].
    assert (Hs : (2 ^ (e + 53) = 2 ^ e * 2 ^ 53)%Z) by (apply Z.pow_add_r; lia).
    destruct (Z_lt_le_dec k 0) as [Hk|Hk].
    + specialize (Hk1 Hk).
      assert (Hq : (0 < 2 ^ (- k))%Z) by (apply Z.pow_pos_nonneg; lia).
      assert (a < 2 * d)%Z by nia.
      assert (2 <= 2 ^ e * 2 ^ 53)%Z by nia. nia.
    + specialize (Hk0 Hk).
      assert (Hm : (2 ^ (k + 1) <= 2 ^ (e + 53))%Z)
        by (apply Z.pow_le_mono_r; lia).
      nia.
  - apply Z.leb_gt in E0.
    assert (Hp : (0 < 2 ^ (- e))%Z) by (apply Z.pow_pos_nonneg; lia).
    apply nearest_even_bounds; [lia|]. split; [nia|].
    destruct (Z_lt_le_dec k 0) as [Hk|Hk].
    + specialize (Hk1 Hk).
      assert (Hm : (2 ^ (- e) <= 2 ^ (- k + 52))%Z)
        by (apply Z.pow_le_mono_r; lia).
      assert (Hs : (2 ^ (- k + 52) = 2 ^ (- k) * 2 ^ 52)%Z)
        by (apply Z.pow_add_r; lia).
      assert (a * 2 ^ (- e) <= a * 2 ^ (- k) * 2 ^ 52)%Z by nia.
      assert (a * 2 ^ (- k) * 2 ^ 52 < 2 * d * 2 ^ 52)%Z
        by (apply Z.mul_lt_mono_pos_r; lia).
      change (2 ^ 53)%Z with (2 * 2 ^ 52)%Z. lia.
    + specialize (Hk0 Hk).
      assert (Hm : (2 ^ (k + 1) * 2 ^ (- e) <= 2 ^ 53)%Z).
      { rewrite <- Z.pow_add_r by lia. apply Z.pow_le_mono_r; lia. }
      assert (a * 2 ^ (- e) < d * 2 ^ (k + 1) * 2 ^ (- e))%Z
        by (apply Z.mul_lt_mono_pos_r; lia).
      nia.
Qed.



(** Numerals that are too small, too large, or not exact. *)
Example Number_underflow :
  Number (Some "1e-400") = Fin 0
  /\ number_truthy (Number (Some "1e-400")) = false.
Proof. vm_compute. split; reflexivity. Qed.

Example Number_overflow :
  Number (Some "1e400") = Infinity false
  /\ times_1000 (Number (Some "1e400")) = Infinity false.
Proof. vm_compute. split; reflexivity. Qed.

Example Number_rounds :
  Number (Some "1.005") = Fin (1131529406376837 # 1125899906842624)
  /\ times_1000 (Number (Some "1.005")) = Fin (8840073487319039 # 8796093022208)
  /\ NumberToString.of_number (times_1000 (Number (Some "1.005")))
     = "1004.9999999999999".
Proof. vm_compute. repeat split. Qed.

(** ** [Number] on decimal numerals *)









(** ** Headers *)

Lemma name_eqb_refl (a : string) : Headers.name_eqb a a = true.
Proof. unfold Headers.name_eqb. apply String.eqb_refl. Qed.

Lemma filter_remove_nil (h : Headers.t) (name : string) :
  filter (fun p => Headers.name_eqb (fst p) name) (Headers.remove h name) = [].
Proof.
  induction h as [|p r IH]; simpl; [reflexivity|].
  destruct (Headers.name_eqb (fst p) name) eqn:E; [exact IH|].
  simpl. rewrite E. exact IH.
Qed.

Lemma filter_replace_first (h : Headers.t) (name value : string) :
  Headers.contains h name = true ->
  exists n, filter (fun p => Headers.name_eqb (fst p) name)
              (Headers.replace_first h name value) = [(n, value)].
Proof.
  induction h as [|p r IH]; simpl; [discriminate|].
  destruct (Headers.name_eqb (fst p) name) eqn:E; simpl.
  - intros _. rewrite E, filter_remove_nil. now exists (fst p).
  - intros Hc. rewrite E. exact (IH Hc).
Qed.

Lemma filter_absent (h : Headers.t) (name : string) :
  Headers.contains h name = false ->
  filter (fun p => Headers.name_eqb (fst p) name) h = [].
Proof.
  induction h as [|p r IH]; simpl; [reflexivity|].
  destruct (Headers.name_eqb (fst p) name); simpl; [discriminate|exact IH].
Qed.

(** After [set(name, value)], [get(name)] is [value] alone. *)
Lemma get_set (h : Headers.t) (name value : string) :
  Headers.get (Headers.set h name value) name = Some value.
Proof.
  unfold Headers.get, Headers.set.
  destruct (Headers.contains h name) eqn:Hc.
  - destruct (filter_replace_first h name value Hc) as [n ->]. simpl.
    reflexivity.
  - unfold Headers.append. rewrite filter_app, (filter_absent _ _ Hc). simpl.
    rewrite name_eqb_refl. reflexivity.
Qed.

Lemma remove_idempotent (h : Headers.t) (name : string) :
  Headers.remove (Headers.remove h name) name = Headers.remove h name.
Proof.
  induction h as [|p r IH]; cbn; [reflexivity|].
  destruct (Headers.name_eqb (fst p) name) eqn:E; [exact IH|].
  cbn. rewrite E. now rewrite IH.
Qed.

Lemma remove_app (h h' : Headers.t) (name : string) :
  Headers.remove (h ++ h') name
  = Headers.remove h name ++ Headers.remove h' name.
Proof.
  induction h as [|p r IH]; cbn; [reflexivity|].
  destruct (Headers.name_eqb (fst p) name); cbn; now rewrite IH.
Qed.

(** [set(name, _)] leaves the headers of every other name as they are,
    in their order. *)
Lemma remove_set (h : Headers.t) (name value : string) :
  Headers.remove (Headers.set h name value) name = Headers.remove h name.
Proof.
  unfold Headers.set. destruct (Headers.contains h name).
  - induction h as [|p r IH]; cbn [Headers.remove Headers.replace_first];
      [reflexivity|].
    destruct (Headers.name_eqb (fst p) name) eqn:E;
      cbn [Headers.remove fst]; rewrite E.
    + apply remove_idempotent.
    + now rewrite IH.
  - unfold Headers.append. rewrite remove_app. cbn [Headers.remove fst].
    rewrite name_eqb_refl. apply app_nil_r.
Qed.

(** After [set(name, _)] there is exactly one header of that name. *)
Lemma one_header_after_set (h : Headers.t) (name value : string) :
  List.length (filter (fun p => Headers.name_eqb (fst p) name)
                 (Headers.set h name value)) = 1.
Proof.
  unfold Headers.set. destruct (Headers.contains h name) eqn:Hc.
  - now destruct (filter_replace_first h name value Hc) as [n ->].
  - unfold Headers.append. rewrite filter_app, (filter_absent _ _ Hc).
    cbn [filter fst app]. now rewrite name_eqb_refl.
Qed.

Lemma contains_replace_first (h : Headers.t) (name value : string) :
  Headers.contains h name = true ->
  Headers.contains (Headers.replace_first h name value) name = true.
Proof.
  induction h as [|p r IH]; cbn [Headers.contains Headers.replace_first existsb];
    [discriminate|].
  destruct (Headers.name_eqb (fst p) name) eqn:E;
    cbn [existsb fst orb]; rewrite E; cbn [orb]; auto.
Qed.

Lemma replace_first_twice (h : Headers.t) (name v v' : string) :
  Headers.replace_first (Headers.replace_first h name v) name v'
  = Headers.replace_first h name v'.
Proof.
  induction h as [|p r IH]; cbn [Headers.replace_first]; [reflexivity|].
  destruct (Headers.name_eqb (fst p) name) eqn:E;
    cbn [Headers.replace_first fst]; rewrite E.
  - now rewrite remove_idempotent.
  - now rewrite IH.
Qed.

Lemma replace_first_appended (h : Headers.t) (name v v' : string) :
  Headers.contains h name = false ->
  Headers.replace_first (h ++ [(name, v)]) name v' = h ++ [(name, v')].
Proof.
  induction h as [|p r IH];
    cbn [Headers.contains existsb app Headers.replace_first fst].
  - intros _. now rewrite name_eqb_refl.
  - destruct (Headers.name_eqb (fst p) name) eqn:E; cbn [orb];
      [discriminate|]. intros Hc. now rewrite (IH Hc).
Qed.

Lemma contains_appended (h : Headers.t) (name v : string) :
  Headers.contains (h ++ [(name, v)]) name = true.
Proof.
  unfold Headers.contains. rewrite existsb_app. cbn [existsb fst].
  rewrite name_eqb_refl. now rewrite orb_true_r.
Qed.

(** Setting a header twice is setting it to the second value. *)
Lemma set_twice (h : Headers.t) (name v v' : string) :
  Headers.set (Headers.set h name v) name v' = Headers.set h name v'.
Proof.
  unfold Headers.set at 2 3. destruct (Headers.contains h name) eqn:Hc.
  - unfold Headers.set. rewrite (contains_replace_first _ _ _ Hc).
    apply replace_first_twice.
  - unfold Headers.set, Headers.append. rewrite contains_appended.
    now apply replace_first_appended.
Qed.

(** ** Status codes *)

Lemma status_5xx_starts_with_5 (res : Response.t) :
  (500 <= Response.status res <= 599)%N ->
  String.prefix "5" (Response.status_toString res) = true.
Proof.
  intros Hs. unfold Response.status_toString, decimal.
  assert (Hall : forallb (fun k => String.prefix "5"
              (NilZero.string_of_uint (N.to_uint (500 + N.of_nat k))))
            (seq 0 100) = true) by (vm_compute; reflexivity).
  rewrite forallb_forall in Hall.
  specialize (Hall (N.to_nat (Response.status res - 500))).
  replace (500 + N.of_nat (N.to_nat (Response.status res - 500)))%N
    with (Response.status res) in Hall by lia.
  apply Hall. apply in_seq. lia.
Qed.

Lemma status_5xx_not_ok (res : Response.t) :
  (500 <= Response.status res <= 599)%N -> Response.ok res = false.
Proof.
  intros Hs. unfold Response.ok.
  apply andb_false_iff. right. apply N.leb_gt. lia.
Qed.

Lemma ok_range (res : Response.t) :
  Response.ok res = true <-> (200 <= Response.status res <= 299)%N.
Proof.
  unfold Response.ok. rewrite andb_true_iff, !N.leb_le. tauto.
Qed.

(** ** Errors *)

(** The only error of [ToString] is the TypeError of an object that
    cannot be converted. *)
Lemma ToString_error (v : JSONValue) : forall e,
  ToString v = inl e ->
  e = TypeError "Cannot convert object to primitive value".
Proof.
  induction v as [|[|]|n|s|items IH|props _] using JSONValue_induction;
    intros e; cbn [ToString]; try discriminate.
  - generalize true at 1.
    induction IH as [|x r Hx _ IHr]; intros first; cbn [join]; [discriminate|].
    destruct (match x with JNull => inr "" | _ => ToString x end)
      as [e1|a] eqn:Ex.
    + intros He. inversion He; subst e1.
      destruct x; try discriminate; exact (Hx _ Ex).
    + destruct (join _ false r) as [e2|b] eqn:Er; [|discriminate].
      intros He. inversion He; subst e2. exact (IHr false Er).
  - destruct (own_property props "toString"); [|discriminate].
    intros He. now inversion He.
Qed.

Lemma new_SpotifyError_cases (message : JSValue) (status : N) :
  (exists m, new_SpotifyError message status = SpotifyError m status)
  \/ new_SpotifyError message status
     = TypeError "Cannot convert object to primitive value".
Proof.
  unfold new_SpotifyError. destruct message as [v|]; [|eauto].
  destruct (ToString v) as [e|s] eqn:E; [|eauto].
  right. exact (ToString_error v e E).
Qed.

(** ** The branches of [call] *)

Section CallBranches.

Context {W : Type} `{Platform W}.

Variable this : SpotifyClient W.
Variable url : URL.t.
Variable method : option HTTPMethod.
Variable _body : option string.

Local Abbreviation run := (call this url method _body).
Local Abbreviation req st := (request url method _body (authorize st)).


(** Line 186. *)
Lemma call_ok fuel st w res w' :
  global_fetch (req st) w = (res, w') ->
  Response.ok res = true ->
  run (S fuel) st w =
  after [CallFetch (req st) res] (finish (Return res) (authorize st) w' []).
Proof.
  intros Hf Hok. cbn [call]. rewrite Hf, Hok.
  reflexivity.
Qed.

(** Lines 188 to 195. *)
Lemma call_refresh fuel st w res w' o refresh_fn tok w'' :
  global_fetch (req st) w = (res, w') ->
  Response.status res = 401%N ->
  authProvider this = ProviderObj o ->
  isTriedRefreshToken st = false ->
  refreshToken o = Some refresh_fn ->
  refresh_fn w' = (tok, w'') ->
  run (S fuel) st w =
  after [CallFetch (req st) res; CallRefreshToken tok]
    (run fuel (refreshed (authorize st) tok) w'').
Proof.
  intros Hf Hs Ha Ht Hr Hw. cbn [call].
  rewrite Hf. unfold Response.ok. rewrite Hs, Ha. cbn. rewrite Ht. cbn.
  rewrite Hr, Hw. reflexivity.
Qed.

Lemma no_refresh_guard st res :
  no_refresh this st res = true ->
  (if (Response.status res =? 401)%N && negb (isTriedRefreshToken (authorize st))
   then as_object (authProvider this) else None) = None.
Proof.
  unfold no_refresh. cbn.
  destruct (Response.status res =? 401)%N, (authProvider this),
    (isTriedRefreshToken st); cbn; congruence.
Qed.

(** Lines 197 to 204. *)
Lemma call_rate_limit fuel st w res w' :
  global_fetch (req st) w = (res, w') ->
  Response.ok res = false ->
  no_refresh this st res = true ->
  rate_limited this res = true ->
  run (S fuel) st w =
  after [CallFetch (req st) res;
         SetTimeout (times_1000
           (Number (Headers.get (Response.headers res) "Retry-After")))]
    (run fuel (authorize st) w').
Proof.
  intros Hf Hok Hn Hr. cbn [call].
  rewrite Hf, Hok, (no_refresh_guard _ _ Hn).
  unfold rate_limited in Hr. rewrite Hr. reflexivity.
Qed.

(** Lines 207 to 214. *)
Lemma call_server_error fuel st w res w' :
  global_fetch (req st) w = (res, w') ->
  Response.ok res = false ->
  no_refresh this st res = true ->
  rate_limited this res = false ->
  server_error_retry st res = true ->
  run (S fuel) st w =
  after (CallFetch (req st) res
         :: delay_events (SpotifyClientOpts.retryDelayOn5xx (opts this)))
    (run fuel (consumed_retry (authorize st)) w').
Proof.
  intros Hf Hok Hn Hr Hs. cbn [call].
  rewrite Hf, Hok, (no_refresh_guard _ _ Hn).
  unfold rate_limited in Hr. rewrite Hr.
  unfold server_error_retry in Hs. cbn [authorize retryTimesOn5xx].
  rewrite Hs. reflexivity.
Qed.

(** Lines 216 to 232. *)
Lemma call_terminal fuel st w res w' :
  global_fetch (req st) w = (res, w') ->
  Response.ok res = false ->
  no_refresh this st res = true ->
  rate_limited this res = false ->
  server_error_retry st res = false ->
  run (S fuel) st w =
  finish (Throw (new_SpotifyError (fst (extract_message JSON_parse res))
                   (Response.status res)))
    (authorize st) w'
    (CallFetch (req st) res :: snd (extract_message JSON_parse res)).
Proof.
  intros Hf Hok Hn Hr Hs. cbn [call].
  rewrite Hf, Hok, (no_refresh_guard _ _ Hn).
  unfold rate_limited in Hr. rewrite Hr.
  unfold server_error_retry in Hs. cbn [authorize retryTimesOn5xx].
  rewrite Hs. destruct (extract_message JSON_parse res). reflexivity.
Qed.

End CallBranches.

(** ** Traces *)

Lemma refresh_calls_app (a b : list Event) :
  refresh_calls (a ++ b) = refresh_calls a + refresh_calls b.
Proof. unfold refresh_calls. now rewrite filter_app, length_app. Qed.

Lemma getToken_calls_app (a b : list Event) :
  getToken_calls (a ++ b) = getToken_calls a + getToken_calls b.
Proof. unfold getToken_calls. now rewrite filter_app, length_app. Qed.

Lemma attempts_app (a b : list Event) :
  attempts (a ++ b) = attempts a + attempts b.
Proof. unfold attempts. now rewrite filter_app, length_app. Qed.

Lemma refresh_calls_cons (e : Event) (l : list Event) :
  refresh_calls (e :: l) = (if is_refresh e then 1 else 0) + refresh_calls l.
Proof. unfold refresh_calls. cbn. now destruct (is_refresh e). Qed.

Lemma getToken_calls_cons (e : Event) (l : list Event) :
  getToken_calls (e :: l) = (if is_getToken e then 1 else 0) + getToken_calls l.
Proof. unfold getToken_calls. cbn. now destruct (is_getToken e). Qed.

Lemma attempts_cons (e : Event) (l : list Event) :
  attempts (e :: l) = (if is_attempt e then 1 else 0) + attempts l.
Proof. unfold attempts. cbn. now destruct (is_attempt e). Qed.

Lemma extract_message_quiet (parse : string -> option JSONValue) res :
  let evs := snd (extract_message parse res) in
  refresh_calls evs = 0 /\ getToken_calls evs = 0 /\ attempts evs = 0
  /\ (evs = [] \/ evs = [ResText]).
Proof.
  unfold extract_message. destruct (Response.body res); cbn; auto.
Qed.

Lemma delay_events_quiet (d : option Z) :
  refresh_calls (delay_events d) = 0 /\ getToken_calls (delay_events d) = 0
  /\ attempts (delay_events d) = 0.
Proof.
  unfold delay_events. destruct d as [z|]; [destruct (negb (z =? 0)%Z)|];
    cbn; auto.
Qed.

Lemma timers_app (a b : list Event) : timers (a ++ b) = timers a + timers b.
Proof. unfold timers. now rewrite filter_app, length_app. Qed.

Lemma timers_cons (e : Event) (l : list Event) :
  timers (e :: l) = (if is_timer e then 1 else 0) + timers l.
Proof. unfold timers. cbn. now destruct (is_timer e). Qed.

Lemma body_reads_app (a b : list Event) :
  body_reads (a ++ b) = body_reads a + body_reads b.
Proof. unfold body_reads. now rewrite filter_app, length_app. Qed.

Lemma body_reads_cons (e : Event) (l : list Event) :
  body_reads (e :: l) = (if is_read e then 1 else 0) + body_reads l.
Proof. unfold body_reads. cbn. now destruct (is_read e). Qed.

Lemma cancels_app (a b : list Event) :
  cancels (a ++ b) = cancels a + cancels b.
Proof. unfold cancels. now rewrite filter_app, length_app. Qed.

Lemma cancels_cons (e : Event) (l : list Event) :
  cancels (e :: l) = (if is_cancel e then 1 else 0) + cancels l.
Proof. unfold cancels. cbn. now destruct (is_cancel e). Qed.

Lemma delay_events_plain (d : option Z) :
  body_reads (delay_events d) = 0 /\ cancels (delay_events d) = 0
  /\ timers (delay_events d) = (if int_truthy d then 1 else 0).
Proof.
  unfold delay_events, int_truthy.
  destruct d as [z|]; [destruct (negb (z =? 0)%Z)|]; cbn; auto.
Qed.

Lemma extract_message_plain (parse : string -> option JSONValue) res :
  let evs := snd (extract_message parse res) in
  timers evs = 0 /\ cancels evs = 0
  /\ body_reads evs = (if has_body res then 1 else 0).
Proof.
  unfold extract_message, has_body. destruct (Response.body res); cbn; auto.
Qed.

Section CallInvariants.

Context {W : Type} `{Platform W}.

Variable this : SpotifyClient W.
Variable url : URL.t.
Variable method : option HTTPMethod.
Variable _body : option string.

Local Abbreviation run := (call this url method _body).


Lemma carry_token_after_delay (tok : option string) d l :
  attempts_carry_token tok (delay_events d ++ l) = attempts_carry_token tok l.
Proof.
  unfold delay_events. destruct d as [z|]; [destruct (negb (z =? 0)%Z)|];
    reflexivity.
Qed.

Lemma authorized_request st :
  Headers.get (Request.headers (request url method _body (authorize st)))
    "Authorization" = Some ("Bearer " ++ accessToken st)%string.
Proof. cbn. apply get_set. Qed.

(** Every attempt of [call] carries the token that the call holds. *)
Lemma call_carries_token fuel : forall st w,
  attempts_carry_token (Some (accessToken st)) (trace (run fuel st w)) = true.
Proof.
  induction fuel as [|fuel IH]; intros st w; [reflexivity|].
  call_step this; cbn [trace after finish app];
    cbn [attempts_carry_token]; rewrite authorized_request, String.eqb_refl;
    rewrite ?carry_token_after_delay; use_IH IH fuel; cbn [andb];
    try exact IH; try reflexivity;
    pose proof (extract_message_quiet JSON_parse res) as Hq;
    rewrite Hmessage in Hq; cbn [snd] in Hq;
    destruct Hq as (_ & _ & _ & [-> | ->]); reflexivity.
Qed.

(** [call] never calls [getToken()]. *)
Lemma call_no_getToken fuel : forall st w,
  getToken_calls (trace (run fuel st w)) = 0.
Proof.
  induction fuel as [|fuel IH]; intros st w; [reflexivity|].
  call_step this; cbn [trace after finish app];
    rewrite ?getToken_calls_cons, ?getToken_calls_app; cbn [is_getToken];
    use_IH IH fuel;
    try rewrite (proj1 (proj2 (delay_events_quiet _)));
    try (pose proof (extract_message_quiet JSON_parse res) as Hq;
         rewrite Hmessage in Hq; cbn [snd] in Hq;
         destruct Hq as (_ & Hq & _); rewrite Hq);
    change (getToken_calls []) with 0; lia.
Qed.

(** [call] returns only a response whose [ok] is true. *)
Lemma call_returns_ok fuel : forall st w res,
  completion (run fuel st w) = Return res -> Response.ok res = true.
Proof.
  induction fuel as [|fuel IH]; intros st w r; [discriminate|].
  call_step this; cbn [completion after finish]; intros Hr;
    try discriminate; try (now inversion Hr; subst);
    eapply IH; exact Hr.
Qed.

End CallInvariants.

(** ** Logical calls *)

Section FetchFacts.

Context {W : Type} `{Platform W}.

Lemma initial_token_cases (this : SpotifyClient W) (w : W) :
  (exists s, authProvider this = TokenString s
             /\ initial_token this w = (Return s, w, []))
  \/ (exists o get_fn tok w',
        authProvider this = ProviderObj o /\ getToken o = Some get_fn
        /\ get_fn w = (tok, w')
        /\ initial_token this w = (Return tok, w', [CallGetToken tok]))
  \/ (exists o, authProvider this = ProviderObj o /\ getToken o = None
        /\ initial_token this w =
           (Throw (TypeError "this.authProvider.getToken is not a function"),
            w, [])).
Proof.
  unfold initial_token. destruct (authProvider this) as [s|o].
  - left. now exists s.
  - destruct (getToken o) as [g|] eqn:Hg.
    + right; left. destruct (g w) as [tok w'] eqn:Hw. now exists o, g, tok, w'.
    + right; right. now exists o.
Qed.

Lemma handle_response_quiet (responseType : ExpectedResponse) res :
  let evs := snd (handle_response responseType res) in
  refresh_calls evs = 0 /\ getToken_calls evs = 0 /\ attempts evs = 0.
Proof.
  unfold handle_response.
  destruct responseType, (Response.body res); cbn; auto.
Qed.

(** The captured variables at the start of [call], lines 163 to 175. *)
Lemma fetch_unfold (this : SpotifyClient W) baseURL responseType o fuel w
  tok w0 evs0 :
  initial_token this w = (Return tok, w0, evs0) ->
  let st := {| _headers := request_headers (FetchOpts.headers o);
               isTriedRefreshToken := false;
               retryTimesOn5xx := SpotifyClientOpts.retryTimesOn5xx (opts this);
               accessToken := tok |} in
  let r := call this (request_url baseURL (FetchOpts.query o))
             (FetchOpts.method o)
             (request_body (FetchOpts.body o) (FetchOpts.json o)) fuel st w0 in
  fetch this baseURL responseType o fuel w =
  match completion r with
  | Return res =>
      {| result := fst (handle_response responseType res);
         response := Some res; final_world := world r;
         events := evs0 ++ trace r ++ snd (handle_response responseType res) |}
  | Throw e =>
      {| result := Throw e; response := None; final_world := world r;
         events := evs0 ++ trace r |}
  | OutOfFuel =>
      {| result := OutOfFuel; response := None; final_world := world r;
         events := evs0 ++ trace r |}
  end.
Proof.
  intros Hi. cbv zeta. unfold fetch. rewrite Hi.
  destruct (completion _); try reflexivity.
  destruct (handle_response responseType a). reflexivity.
Qed.

(** A logical call in terms of the run of [call] it starts. *)
Lemma fetch_trace (this : SpotifyClient W) baseURL responseType o fuel w
  tok w0 evs0 :
  initial_token this w = (Return tok, w0, evs0) ->
  let r := call this (request_url baseURL (FetchOpts.query o))
             (FetchOpts.method o)
             (request_body (FetchOpts.body o) (FetchOpts.json o)) fuel
             (initial_locals this o tok) w0 in
  let out := fetch this baseURL responseType o fuel w in
  events out =
    evs0 ++ trace r ++
    match completion r with
    | Return res => snd (handle_response responseType res)
    | _ => []
    end
  /\ result out =
     match completion r with
     | Return res => fst (handle_response responseType res)
     | Throw e => Throw e
     | OutOfFuel => OutOfFuel
     end
  /\ response out =
     match completion r with
     | Return res => Some res
     | _ => None
     end.
Proof.
  intros Hi. cbv zeta. rewrite (fetch_unfold _ _ _ _ _ _ _ _ _ Hi). cbv zeta.
  unfold initial_locals.
  destruct (completion _); cbn [events result response];
    rewrite ?app_nil_r; auto.
Qed.

(** The token is resolved or the call throws before any attempt. *)
Lemma fetch_cases (this : SpotifyClient W) baseURL responseType o fuel w :
  (exists tok w0 evs0,
     initial_token this w = (Return tok, w0, evs0)
     /\ (evs0 = [] \/ evs0 = [CallGetToken tok])
     /\ (held_token (authProvider this) = Some tok \/ evs0 = [CallGetToken tok]))
  \/ (is_object (authProvider this) = true
      /\ resolves_token (authProvider this) = false
      /\ events (fetch this baseURL responseType o fuel w) = []
      /\ result (fetch this baseURL responseType o fuel w) =
         Throw (TypeError "this.authProvider.getToken is not a function")
      /\ response (fetch this baseURL responseType o fuel w) = None).
Proof.
  destruct (initial_token_cases this w)
    as [(s & Ha & Hi) | [(p & g & tok & w' & Ha & _ & _ & Hi) | (p & Ha & Hg & Hi)]].
  - left. exists s, w, []. rewrite Ha. cbn. auto.
  - left. exists tok, w', [CallGetToken tok]. auto.
  - right. unfold fetch. rewrite Hi, Ha. cbn. rewrite Hg. auto.
Qed.

(** Resolving the token makes no attempt and sets no timer. *)
Lemma initial_token_events (this : SpotifyClient W) w c w0 evs0 :
  initial_token this w = (c, w0, evs0) ->
  attempts evs0 = 0 /\ timers evs0 = 0.
Proof.
  destruct (initial_token_cases this w)
    as [(s & _ & ->) | [(p & g & tok & w' & _ & _ & _ & ->) | (p & _ & _ & ->)]];
    intros E; inversion E; split; reflexivity.
Qed.


Lemma status_401_facts (this : SpotifyClient W) st res :
  Response.status res = 401%N ->
  Response.ok res = false
  /\ rate_limited this res = false
  /\ server_error_retry st res = false.
Proof.
  intros Hs. unfold Response.ok, rate_limited, server_error_retry,
    Response.status_toString. rewrite Hs. repeat split; reflexivity.
Qed.


End FetchFacts.

(** ** Claims *)



(** C1. The executor resolves the token of a dynamic provider by calling
    [getToken()] and recovers from a 401 by calling [refreshToken()]; the
    interface [IAuthProvider] declares neither.  For an object that has
    exactly the members of [IAuthProvider] ([getAccessToken] and
    [refresh]), whatever they do, every logical call throws a TypeError at
    line 174, before any attempt. *)
Theorem IAuthProvider_object_has_no_getToken {W : Type} `{Platform W}
  (get_access : option bool -> W -> string * W)
  (refresh_fn : W -> AccessResponse * W)
  (client_opts : SpotifyClientOpts.t) baseURL responseType o fuel w :
  let provider := {| getAccessToken := Some get_access;
                     refresh := Some refresh_fn;
                     getToken := None; refreshToken := None |} in
  let this := {| authProvider := ProviderObj provider; opts := client_opts |} in
  let out := fetch this baseURL responseType o fuel w in
  implements_IAuthProvider provider = true
  /\ is_token_source provider = false
  /\ result out =
     Throw (TypeError "this.authProvider.getToken is not a function")
  /\ events out = [].
Proof. cbv zeta. repeat split. Qed.

Lemma attempts_carry_token_app (l l' : list Event) : forall tok,
  attempts_carry_token tok l = true ->
  (forall t, attempts_carry_token t l' = true) ->
  attempts_carry_token tok (l ++ l') = true.
Proof.
  induction l as [|e l IH]; intros tok Hl Hl'; cbn [app]; [apply Hl'|].
  destruct e; cbn [attempts_carry_token] in *; auto.
  apply andb_prop in Hl. destruct Hl as [-> Hl]. cbn. auto.
Qed.

(** C3, as the code has it.  For every logical call, the token source is
    asked for its current token at most once, and before the first
    physical attempt; the [Authorization] header of every physical attempt
    is [Bearer] followed by the token the call holds at that moment: the
    static string or the result of that one [getToken()] call, and after a
    401 recovery the result of [refreshToken()].  So the next attempt
    picks up a token that this call refreshed, and no other change of the
    token source. *)
Theorem token_resolved_once_per_call {W : Type} `{Platform W}
  (this : SpotifyClient W) baseURL responseType o fuel w :
  let out := fetch this baseURL responseType o fuel w in
  getToken_calls (events out) <= 1
  /\ attempts_carry_token (held_token (authProvider this)) (events out) = true.
Proof.
  cbv zeta.
  assert (Hq : forall res t,
    attempts_carry_token t (snd (handle_response responseType res)) = true).
  { intros res t. unfold handle_response.
    destruct responseType, (Response.body res); reflexivity. }
  destruct (initial_token_cases this w)
    as [(s & Ha & Hi) | [(p & g & tok & w' & Ha & _ & _ & Hi) | (p & Ha & _ & Hi)]].
  - rewrite (fetch_unfold _ _ _ _ _ _ _ _ _ Hi), Ha. cbv zeta.
    match goal with |- context [completion ?r] =>
      pose proof (call_no_getToken this _ _ _ fuel _ _ : getToken_calls (trace r) = 0) as Hg;
      pose proof (call_carries_token this _ _ _ fuel _ _ : attempts_carry_token _ (trace r) = true) as Hc;
      destruct (completion r) end;
      cbn [events accessToken held_token app] in *;
      rewrite ?getToken_calls_app, ?(proj1 (proj2 (handle_response_quiet _ _)));
      rewrite ?app_nil_r; (split; [lia|]);
      try exact Hc. now apply attempts_carry_token_app.
  - rewrite (fetch_unfold _ _ _ _ _ _ _ _ _ Hi), Ha. cbv zeta.
    match goal with |- context [completion ?r] =>
      pose proof (call_no_getToken this _ _ _ fuel _ _ : getToken_calls (trace r) = 0) as Hg;
      pose proof (call_carries_token this _ _ _ fuel _ _ : attempts_carry_token _ (trace r) = true) as Hc;
      destruct (completion r) end;
      cbn [events accessToken held_token app attempts_carry_token] in *;
      rewrite ?getToken_calls_cons, ?getToken_calls_app,
        ?(proj1 (proj2 (handle_response_quiet _ _)));
      cbn [is_getToken]; (split; [lia|]);
      try exact Hc. now apply attempts_carry_token_app.
  - unfold fetch. rewrite Hi. cbn. split; [lia|reflexivity].
Qed.

(** C3 as stated fails.  The client may retry one server error; the first
    attempt is answered 503 and, while it is in flight, the token source
    moves from the token "old" to the token "new"; the second attempt is
    answered 200.  The token source is read once, no token is resolved
    between the two attempts, and the second attempt still carries "old". *)
Lemma token_not_resolved_before_retry :
  let this := Sim.client (ProviderObj Sim.token_source) 1 0 false in
  let w := Sim.start [(Sim.respond 503 [] (Some "busy"), Some "new");
                      (Sim.respond 200 [] (Some "{}"), None)]
             Sim.ok_empty "old" in
  let out := fetch this "/me" json FetchOpts.empty 3 w in
  token_resolved_before_each_attempt false (events out) = false
  /\ getToken_calls (events out) = 1
  /\ attempts (events out) = 2
  /\ map (fun r => Headers.get (Request.headers r) "Authorization")
       (requests (events out)) = [Some "Bearer old"; Some "Bearer old"]
  /\ Sim.token (final_world out) = "new"
  /\ result out = Return (Some (JObject [])).
Proof. vm_compute. repeat split. Qed.

(** C4.  A caller's header is added with [append], so a header whose name
    is already among the base headers does not replace the base value: the
    request carries the base value and the caller's value under that name,
    and reads as "application/json, " followed by the caller's value. *)
Theorem caller_header_is_appended_to_base_header :
  (forall v,
     Headers.get (request_headers (Some [("Content-Type", v)])) "Content-Type"
     = Some ("application/json, " ++ v)%string)
  /\ (forall v,
        Headers.get (request_headers (Some [("Accept", v)])) "Accept"
        = Some ("application/json, " ++ v)%string)
  /\ (let o := {| FetchOpts.method := Some PUT; FetchOpts.json := None;
                  FetchOpts.query := None;
                  FetchOpts.headers := Some [("Content-Type", "text/plain")];
                  FetchOpts.body := Some "hello" |} in
      let out := fetch (Sim.client (TokenString "tok") 0 0 false) "/me" void o 1
                   (Sim.start [] Sim.ok_empty "tok") in
      map (fun r => Headers.get (Request.headers r) "Content-Type")
        (requests (events out)) = [Some "application/json, text/plain"]
      /\ map Request.headers (requests (events out)) =
         [[("Content-Type", "application/json"); ("Accept", "application/json");
           ("Content-Type", "text/plain"); ("Authorization", "Bearer tok")]]).
Proof.
  split; [|split].
  - intros v. reflexivity.
  - intros v. reflexivity.
  - vm_compute. split; reflexivity.
Qed.

Section ServerErrors.

Context {W : Type} `{Platform W}.

Variable this : SpotifyClient W.
Variable url : URL.t.
Variable method : option HTTPMethod.
Variable _body : option string.

Local Abbreviation run := (call this url method _body).

Lemma status_5xx_facts st res :
  (500 <= Response.status res <= 599)%N ->
  Response.ok res = false
  /\ no_refresh this st res = true
  /\ rate_limited this res = false
  /\ server_error_retry st res = int_truthy (retryTimesOn5xx st).
Proof.
  intros Hs. split; [now apply status_5xx_not_ok|].
  unfold no_refresh, rate_limited, server_error_retry.
  rewrite (status_5xx_starts_with_5 res Hs).
  assert (E1 : (Response.status res =? 401)%N = false) by (apply N.eqb_neq; lia).
  assert (E2 : (Response.status res =? 429)%N = false) by (apply N.eqb_neq; lia).
  rewrite E1, E2. repeat split.
Qed.



End ServerErrors.



(** ** Rate limits *)

(** [authorize] twice is [authorize] once. *)
Lemma authorize_idem (st : Locals) : authorize (authorize st) = authorize st.
Proof.
  unfold authorize.
  cbn [_headers isTriedRefreshToken retryTimesOn5xx accessToken].
  now rewrite set_twice.
Qed.


Lemma after_nil {A W : Type} (r : Run A W) : after [] r = r.
Proof. now destruct r. Qed.

Lemma after_app {A W : Type} (a b : list Event) (r : Run A W) :
  after (a ++ b) r = after a (after b r).
Proof. unfold after. cbn. now rewrite app_assoc. Qed.



Section RateLimit.

Context {W : Type} `{Platform W}.

Variable this : SpotifyClient W.
Variable url : URL.t.
Variable method : option HTTPMethod.
Variable _body : option string.

Local Abbreviation run := (call this url method _body).
Local Abbreviation req st := (request url method _body (authorize st)).

Lemma status_429_facts st res :
  Response.status res = 429%N ->
  Response.ok res = false
  /\ no_refresh this st res = true
  /\ server_error_retry st res = false.
Proof.
  intros Hs. unfold Response.ok, no_refresh, server_error_retry,
    Response.status_toString. rewrite Hs. repeat split; reflexivity.
Qed.

(** A 429 whose [Retry-After] reads as a truthy number: wait for that
    number times 1000 and retry with the same captured variables. *)
Lemma call_rate_limit_waits fuel st w res w' :
  flag_truthy (SpotifyClientOpts.retryOnRateLimit (opts this)) = true ->
  global_fetch (req st) w = (res, w') ->
  Response.status res = 429%N ->
  number_truthy (Number (Headers.get (Response.headers res) "Retry-After"))
  = true ->
  run (S fuel) st w =
  after [CallFetch (req st) res;
         SetTimeout (times_1000
           (Number (Headers.get (Response.headers res) "Retry-After")))]
    (run fuel (authorize st) w').
Proof.
  intros Hflag E Hs Hn.
  destruct (status_429_facts st res Hs) as (Hok & Hnr & _).
  apply (call_rate_limit this url method _body fuel st w res w' E Hok Hnr).
  unfold rate_limited. now rewrite Hs, Hflag, Hn.
Qed.



End RateLimit.

Section RateLimitedCalls.

Context {W : Type} `{Platform W}.

Variable this : SpotifyClient W.
Variable baseURL : string.
Variable responseType : ExpectedResponse.
Variable o : FetchOpts.t SearchParams.

Local Abbreviation url := (request_url baseURL (FetchOpts.query o)).
Local Abbreviation body :=
  (request_body (FetchOpts.body o) (FetchOpts.json o)).

(** The first request of a logical call that holds the token [tok]. *)
Lemma first_request (tok : string) :
  request url (FetchOpts.method o) body (authorize (initial_locals this o tok))
  = attempt_request baseURL o tok.
Proof. reflexivity. Qed.





End RateLimitedCalls.

(** On the simulated platform: [k] rate-limited answers with a wait,
    then the rest of the script.  [call] waits [k] times and goes on with
    the captured variables it had. *)
Lemma sim_rate_limit_prefix (this : SpotifyClient Sim.World) url method _body
  (limited : Response.t) script fallback tok (k : nat) :
  forall fuel st,
  flag_truthy (SpotifyClientOpts.retryOnRateLimit (opts this)) = true ->
  Response.status limited = 429%N ->
  number_truthy (Number (Headers.get (Response.headers limited) "Retry-After"))
  = true ->
  call this url method _body (k + fuel) st
    (Sim.start (repeat (limited, None) k ++ script) fallback tok)
  = after (List.concat (repeat
             [CallFetch (request url method _body (authorize st)) limited;
              SetTimeout (times_1000
                (Number (Headers.get (Response.headers limited)
                           "Retry-After")))] k))
      (call this url method _body fuel (Nat.iter k authorize st)
         (Sim.start script fallback tok)).
Proof.
  induction k as [|k IH]; intros fuel st Hflag Hs Hn.
  - cbn [repeat List.concat app Nat.add]. now rewrite after_nil.
  - assert (E : global_fetch (request url method _body (authorize st))
                  (Sim.start (repeat (limited, None) (S k) ++ script)
                     fallback tok)
                = (limited,
                   Sim.start (repeat (limited, None) k ++ script)
                     fallback tok)) by reflexivity.
    cbn [Nat.add].
    rewrite (call_rate_limit_waits this url method _body (k + fuel) st _
               limited _ Hflag E Hs Hn).
    rewrite (IH fuel (authorize st) Hflag Hs Hn), authorize_idem.
    cbn [repeat List.concat].
    now rewrite Nat.iter_succ_r, after_app.
Qed.

Lemma marks_of_waits (k : nat) (req : Request.t) (res : Response.t)
  (ms : JSNumber) :
  map mark (List.concat (repeat [CallFetch req res; SetTimeout ms] k))
  = List.concat (repeat [Attempt; Timer ms] k).
Proof. induction k as [|k IH]; cbn; [reflexivity|]. now rewrite IH. Qed.







(** ** The error message *)

Lemma envelope_message_of_envelope (parse : string -> option JSONValue)
  text v m :
  parse text = Some v -> error_envelope v = Some m ->
  envelope_message parse text = inr (Some (JString m)).
Proof.
  intros Hp He. unfold envelope_message. rewrite Hp.
  destruct v as [| | | | |props]; try discriminate. cbn in *.
  destruct (own_property props "error") as [[| | | | |e]|]; try discriminate.
  cbn. destruct (own_property e "message") as [[| | |s| |]|]; try discriminate.
  now inversion He.
Qed.

Lemma envelope_message_of_member (parse : string -> option JSONValue)
  text v e :
  parse text = Some v -> error_member v = Some e ->
  envelope_message parse text = inr (message_member e).
Proof.
  intros Hp He. unfold envelope_message. rewrite Hp.
  destruct v as [| | | | |props]; try discriminate. cbn in *.
  destruct (own_property props "error") as [[| | | | |e']|]; try discriminate;
    inversion He; subst; reflexivity.
Qed.

Lemma envelope_message_throws (parse : string -> option JSONValue) text v :
  parse text = Some v -> error_member v = None ->
  exists err, envelope_message parse text = inl err.
Proof.
  intros Hp He. unfold envelope_message. rewrite Hp.
  destruct v as [| | | | |props]; cbn in *; eauto.
  destruct (own_property props "error") as [[| | | | |e']|]; try discriminate;
    cbn; eauto.
Qed.

Section TerminalFailure.

Context {W : Type} `{Platform W}.

(** A logical call whose first answer is not ok and opens no retry path:
    one attempt, the message is extracted, and the call throws what
    [new SpotifyError(message, res.status)] gives. *)
Lemma fetch_terminal (this : SpotifyClient W) baseURL responseType o fuel w
  tok w0 evs0 res w1 :
  initial_token this w = (Return tok, w0, evs0) ->
  global_fetch (attempt_request baseURL o tok) w0 = (res, w1) ->
  Response.ok res = false ->
  no_refresh this (initial_locals this o tok) res = true ->
  rate_limited this res = false ->
  server_error_retry (initial_locals this o tok) res = false ->
  1 <= fuel ->
  let out := fetch this baseURL responseType o fuel w in
  events out
  = evs0 ++ CallFetch (attempt_request baseURL o tok) res
           :: snd (extract_message JSON_parse res)
  /\ result out
     = Throw (new_SpotifyError (fst (extract_message JSON_parse res))
                (Response.status res))
  /\ attempts (events out) = 1.
Proof.
  intros Hi E Hok Hnr Hrl Hse Hfuel. cbv zeta.
  destruct fuel as [|fuel]; [lia|].
  destruct (fetch_trace this baseURL responseType o (S fuel) w tok w0
              evs0 Hi) as (He & Hr & _).
  cbv zeta in He, Hr. rewrite He, Hr. clear He Hr.
  rewrite <- (first_request this baseURL o tok) in E.
  rewrite (call_terminal this _ _ _ fuel (initial_locals this o tok) w0 res w1
             E Hok Hnr Hrl Hse).
  rewrite first_request.
  cbn [finish completion trace]. rewrite app_nil_r.
  destruct (initial_token_events this w _ _ _ Hi) as (A0 & _).
  destruct (extract_message_quiet JSON_parse res) as (_ & _ & Qa & _).
  rewrite attempts_app, attempts_cons, A0, Qa. repeat split.
Qed.

End TerminalFailure.

(** C7.  A response whose status is 400 or more and to which no retry
    path applies ends the logical call after that one attempt, by
    [throw new SpotifyError(message, res.status)], where [message] is
    - the string "null" when the response has no body;
    - the raw body text when [JSON.parse] of the text throws, and when the
      parsed value has no [error] member to read [message] from
      ([undefined] or [null]: the TypeError is caught);
    - the envelope's message when the body is an error envelope;
    - otherwise whatever the property [message] of the [error] member is.
      When there is no such property the variable [message], declared a
      string, is [undefined], and the error is made without a message: its
      message is the empty string, not the raw body text.
    The last conjunct runs the call on a body that parses as JSON and is
    no error envelope, the shape of an authentication error. *)
Theorem terminal_failure_message :
  (forall (W : Type) (P : Platform W) (this : SpotifyClient W)
          baseURL responseType o fuel w tok w0 evs0 res w1,
     initial_token this w = (Return tok, w0, evs0) ->
     global_fetch (attempt_request baseURL o tok) w0 = (res, w1) ->
     (400 <= Response.status res)%N ->
     no_refresh this (initial_locals this o tok) res = true ->
     rate_limited this res = false ->
     server_error_retry (initial_locals this o tok) res = false ->
     1 <= fuel ->
     let out := fetch this baseURL responseType o fuel w in
     let status := Response.status res in
     attempts (events out) = 1
     /\ (Response.body res = None ->
         result out = Throw (SpotifyError "null" status))
     /\ (forall text, Response.body res = Some text ->
           (JSON_parse text = None ->
            result out = Throw (SpotifyError text status))
           /\ (forall v, JSON_parse text = Some v ->
                 (error_member v = None ->
                  result out = Throw (SpotifyError text status))
                 /\ (forall m, error_envelope v = Some m ->
                       result out = Throw (SpotifyError m status))
                 /\ (forall e, error_member v = Some e ->
                       result out
                       = Throw (new_SpotifyError (message_member e) status))
                 /\ (forall e, error_member v = Some e ->
                       message_member e = undefined ->
                       result out = Throw (SpotifyError "" status)))))
  /\ (let text := ("{" ++ Sim.quoted "error" ++ ":"
                   ++ Sim.quoted "invalid_token" ++ "}")%string in
      let res := Sim.respond 400 [] (Some text) in
      let out := fetch (Sim.client (TokenString "tok") 0 0 false) "/me" json
                   FetchOpts.empty 1
                   (Sim.start [(res, None)] Sim.ok_empty "tok") in
      Sim.parse text = Some (JObject [("error", JString "invalid_token")])
      /\ specified_message Sim.parse res = text
      /\ result out = Throw (SpotifyError "" 400)
      /\ result out <> Throw (SpotifyError (specified_message Sim.parse res) 400)).
Proof.
  split.
  - intros W P this baseURL responseType o fuel w tok w0 evs0 res w1
      Hi E Hs Hnr Hrl Hse Hfuel.
    assert (Hok : Response.ok res = false).
    { unfold Response.ok. apply andb_false_iff. right. apply N.leb_gt. lia. }
    destruct (fetch_terminal this baseURL responseType o fuel w tok w0 evs0
                res w1 Hi E Hok Hnr Hrl Hse Hfuel) as (_ & Hr & Ha).
    cbv zeta in Hr, Ha |- *. rewrite Hr. split; [exact Ha|].
    unfold extract_message. split.
    + now intros ->.
    + intros text ->. cbn [fst]. split.
      * intros Hp. unfold envelope_message. now rewrite Hp.
      * intros v Hp. split; [|split; [|split]].
        -- intros He.
           destruct (envelope_message_throws JSON_parse text v Hp He) as [err ->].
           reflexivity.
        -- intros m He.
           now rewrite (envelope_message_of_envelope JSON_parse text v m Hp He).
        -- intros e He.
           now rewrite (envelope_message_of_member JSON_parse text v e Hp He).
        -- intros e He Hm.
           now rewrite (envelope_message_of_member JSON_parse text v e Hp He), Hm.
  - vm_compute. repeat split. discriminate.
Qed.

(** An instance of C7: a 404 whose body is the error envelope with the
    message "Not found". *)
Lemma terminal_failure_message_witness :
  let text := ("{" ++ Sim.quoted "error" ++ ":{" ++ Sim.quoted "message" ++ ":"
               ++ Sim.quoted "Not found" ++ "," ++ Sim.quoted "status"
               ++ ":404}}")%string in
  let res := Sim.respond 404 [] (Some text) in
  let out := @fetch unit (Fixed.platform res)
               (Fixed.client (TokenString "tok") 0 0 false)
               "/me" json FetchOpts.empty 1 tt in
  error_envelope (JObject [("error", JObject [("message", JString "Not found");
                                              ("status", JNumber (Fin 404))])])
  = Some "Not found"
  /\ attempts (events out) = 1
  /\ result out = Throw (SpotifyError "Not found" 404).
Proof.
  cbv zeta. split; [reflexivity|].
  destruct (proj1 terminal_failure_message unit
              (Fixed.platform (Sim.respond 404 []
                 (Some ("{" ++ Sim.quoted "error" ++ ":{" ++ Sim.quoted "message"
                        ++ ":" ++ Sim.quoted "Not found" ++ ","
                        ++ Sim.quoted "status" ++ ":404}}")%string)))
              (Fixed.client (TokenString "tok") 0 0 false)
              "/me" json FetchOpts.empty 1 tt "tok" tt [] _ tt
              eq_refl eq_refl ltac:(cbn; lia) eq_refl eq_refl eq_refl (le_n 1))
    as (Ha & _ & Hbody).
  split; [exact Ha|].
  exact (proj1 (proj2 (proj2 (Hbody _ eq_refl) _ eq_refl)) "Not found" eq_refl).
Defined.

(** The two examples of the specification: the envelope's message, and
    the raw text of a body that is no JSON. *)
Example not_found_message :
  let text := ("{" ++ Sim.quoted "error" ++ ":{" ++ Sim.quoted "message" ++ ":"
               ++ Sim.quoted "Not found" ++ "," ++ Sim.quoted "status"
               ++ ":404}}")%string in
  result (fetch (Sim.client (TokenString "tok") 0 0 false) "/me" json
            FetchOpts.empty 1
            (Sim.start [(Sim.respond 404 [] (Some text), None)]
               Sim.ok_empty "tok"))
  = Throw (SpotifyError "Not found" 404).
Proof. vm_compute. reflexivity. Qed.

Example internal_server_error_message :
  result (fetch (Sim.client (TokenString "tok") 0 0 false) "/me" json
            FetchOpts.empty 1
            (Sim.start [(Sim.respond 500 [] (Some "Internal Server Error"), None)]
               Sim.ok_empty "tok"))
  = Throw (SpotifyError "Internal Server Error" 500).
Proof. vm_compute. reflexivity. Qed.

(** Messages that are no strings: a number is written out, an object
    gives "[object Object]", and an object with a member [toString] makes
    the constructor throw a TypeError in place of the SpotifyError. *)
Example messages_that_are_no_strings :
  let body m := ("{" ++ Sim.quoted "error" ++ ":{" ++ Sim.quoted "message"
                 ++ ":" ++ m ++ "}}")%string in
  let run m :=
    result (fetch (Sim.client (TokenString "tok") 0 0 false) "/me" json
              FetchOpts.empty 1
              (Sim.start [(Sim.respond 401 [] (Some (body m)), None)]
                 Sim.ok_empty "tok")) in
  run "123" = Throw (SpotifyError "123" 401)
  /\ run "[1,null,true]" = Throw (SpotifyError "1,,true" 401)
  /\ run "{}" = Throw (SpotifyError "[object Object]" 401)
  /\ run ("{" ++ Sim.quoted "toString" ++ ":1}")%string
     = Throw (TypeError "Cannot convert object to primitive value").
Proof. vm_compute. repeat split. Qed.

(** ** Result handling *)

(** C8, as the code has it.  When [call] returns a response to a logical
    call that expects JSON, that response has an ok status, 200 to 299; if
    it has no body the call throws the plain error "Body not found", if
    its body is the text of a JSON value the call returns that value; and
    whatever the call throws at this stage is no SpotifyError. *)
Theorem structured_result_of_ok_response {W : Type} `{Platform W}
  (this : SpotifyClient W) baseURL o fuel w res :
  let out := fetch this baseURL json o fuel w in
  response out = Some res ->
  (200 <= Response.status res <= 299)%N
  /\ (Response.body res = None -> result out = Throw (Error_ "Body not found"))
  /\ (forall text v, Response.body res = Some text ->
        JSON_parse text = Some v -> result out = Return (Some v))
  /\ (forall e, result out = Throw e -> is_SpotifyError e = false).
Proof.
  cbv zeta.
  destruct (initial_token_cases this w)
    as [(s & _ & Hi) | [(p & g & tok & w' & _ & _ & _ & Hi) | (p & _ & _ & Hi)]];
    try (rewrite (fetch_unfold _ _ _ _ _ _ _ _ _ Hi); cbv zeta;
         match goal with |- context [completion ?r] =>
           pose proof (call_returns_ok this _ _ _ fuel _ _ : forall x,
                         completion r = Return x -> Response.ok x = true) as Hret;
           destruct (completion r) as [res'| |]
         end; cbn [response result]; try discriminate;
         intros Hres; inversion Hres; subst res';
         (split; [apply ok_range; now apply Hret|]);
         unfold handle_response;
         destruct (Response.body res) as [text|]; cbn [fst];
         repeat split; try discriminate;
         [ intros t v Ht Hp; inversion Ht; subst t; now rewrite Hp
         | intros e; destruct (JSON_parse text); intros He; inversion He;
           reflexivity
         | intros e He; inversion He; reflexivity ]).
  unfold fetch. rewrite Hi. cbn. discriminate.
Qed.

(** An instance of C8: a 200 whose body is the text of an empty object. *)
Lemma structured_result_of_ok_response_witness :
  let res := Sim.respond 200 [] (Some "{}") in
  let out := fetch (Sim.client (TokenString "tok") 0 0 false) "/me" json
               FetchOpts.empty 1 (Sim.start [(res, None)] Sim.ok_empty "tok") in
  (200 <= Response.status res <= 299)%N
  /\ (Response.body res = None -> result out = Throw (Error_ "Body not found"))
  /\ (forall text v, Response.body res = Some text ->
        Sim.parse text = Some v -> result out = Return (Some v))
  /\ (forall e, result out = Throw e -> is_SpotifyError e = false).
Proof.
  exact (@structured_result_of_ok_response Sim.World Sim.platform
           (Sim.client (TokenString "tok") 0 0 false) "/me" FetchOpts.empty 1
           (Sim.start [(Sim.respond 200 [] (Some "{}"), None)] Sim.ok_empty "tok")
           (Sim.respond 200 [] (Some "{}")) eq_refl).
Defined.

(** C8 as stated fails.  A 304 has a status under 400 and no body; the
    call that expects JSON throws a SpotifyError of status 304, not the
    plain error.  A 300 with a JSON body is not returned either. *)
Lemma status_under_400_is_not_always_success :
  let this := Sim.client (TokenString "tok") 0 0 false in
  let not_modified := Sim.respond 304 [] None in
  let choices := Sim.respond 300 [] (Some "{}") in
  let out1 := fetch this "/me" json FetchOpts.empty 1
                (Sim.start [(not_modified, None)] Sim.ok_empty "tok") in
  let out2 := fetch this "/me" json FetchOpts.empty 1
                (Sim.start [(choices, None)] Sim.ok_empty "tok") in
  (Response.status not_modified < 400)%N
  /\ Response.body not_modified = None
  /\ result out1 = Throw (SpotifyError "null" 304)
  /\ (Response.status choices < 400)%N
  /\ Sim.parse "{}" = Some (JObject [])
  /\ result out2 = Throw (SpotifyError "{}" 300).
Proof. vm_compute. repeat split. Qed.

(** ** Body streams *)

(** C9.  The exits of a logical call release the body of the response
    they end with: the JSON result reads it, the discard path cancels it,
    the error path reads it as text.  The three retry branches do not: the
    response that caused the retry is dropped with its body neither read
    nor cancelled, and the next attempt is made while that stream is still
    open. *)
Theorem retry_branches_leave_body_open :
  let body := Some "busy" in
  let run (this : SpotifyClient Sim.World) responseType script :=
    events (fetch this "/me" responseType FetchOpts.empty 3
              (Sim.start script Sim.ok_empty "tok")) in
  let static := Sim.client (TokenString "tok") 1 0 true in
  let dynamic := Sim.client (ProviderObj Sim.token_source) 1 0 true in
  (* exits *)
  (let evs := run static json [(Sim.respond 200 [] (Some "{}"), None)] in
   map mark evs = [Attempt; BodyRead] /\ streams_closed false evs = true)
  /\ (let evs := run static void [(Sim.respond 200 [] (Some "{}"), None)] in
      map mark evs = [Attempt; BodyCancelled] /\ streams_closed false evs = true)
  /\ (let evs := run static json [(Sim.respond 404 [] body, None)] in
      map mark evs = [Attempt; BodyRead] /\ streams_closed false evs = true)
  (* retry after a server error *)
  /\ (let evs := run static void [(Sim.respond 503 [] body, None);
                                  (Sim.respond 200 [] (Some "{}"), None)] in
      map mark evs = [Attempt; Attempt; BodyCancelled]
      /\ streams_closed false evs = false)
  (* retry after a token refresh *)
  /\ (let evs := run dynamic void [(Sim.respond 401 [] body, None);
                                   (Sim.respond 200 [] (Some "{}"), None)] in
      map mark evs = [TokenRead; Attempt; TokenRefresh; Attempt; BodyCancelled]
      /\ streams_closed false evs = false)
  (* retry after a rate-limit wait *)
  /\ (let evs := run static void [(Sim.respond 429 [("Retry-After", "1")] body, None);
                                  (Sim.respond 200 [] (Some "{}"), None)] in
      map mark evs = [Attempt; Timer (Fin (1000 # 1)); Attempt; BodyCancelled]
      /\ streams_closed false evs = false).
Proof. vm_compute. repeat split. Qed.

(** An object with exactly the members of [IAuthProvider], on the
    simulated platform. *)
Example auth_provider_call_throws :
  implements_IAuthProvider Sim.auth_provider = true
  /\ result (fetch (Sim.client (ProviderObj Sim.auth_provider) 0 0 false) "/me"
               json FetchOpts.empty 3
               (Sim.start [(Sim.respond 200 [] (Some "{}"), None)]
                  Sim.ok_empty "tok"))
     = Throw (TypeError "this.authProvider.getToken is not a function").
Proof. vm_compute. split; reflexivity. Qed.

(** ** Two more examples of the specification *)

(** A 429 with [Retry-After: 2], then a 200: a wait of 2000 ms between
    the two attempts, and the parsed body of the second response. *)
Example rate_limited_then_ok :
  let out := fetch (Sim.client (TokenString "tok") 0 0 true) "/me" json
               FetchOpts.empty 2
               (Sim.start [(Sim.respond 429 [("Retry-After", "2")] None, None);
                           (Sim.respond 200 [] (Some "[1,2]"), None)]
                  Sim.ok_empty "tok") in
  map mark (events out) = [Attempt; Timer (Fin (2000 # 1)); Attempt; BodyRead]
  /\ result out = Return (Some (JArray [JNumber (Fin 1); JNumber (Fin 2)])).
Proof. vm_compute. split; reflexivity. Qed.

(** A 401, then a 200, with a dynamic token source: one refresh, the
    second attempt carries the refreshed token, and the result is the
    second response. *)
Example unauthorized_then_ok :
  let out := fetch (Sim.client (ProviderObj Sim.token_source) 0 0 false) "/me"
               json FetchOpts.empty 2
               (Sim.start [(Sim.respond 401 [] None, None);
                           (Sim.respond 200 [] (Some "true"), None)]
                  Sim.ok_empty "tok") in
  map mark (events out) = [TokenRead; Attempt; TokenRefresh; Attempt; BodyRead]
  /\ map (fun r => Headers.get (Request.headers r) "Authorization")
       (requests (events out)) = [Some "Bearer tok"; Some "Bearer tok*"]
  /\ result out = Return (Some (JBool true)).
Proof. vm_compute. repeat split. Qed.

(** * Further properties of the executor *)

Lemma initial_token_plain {W : Type} `{Platform W} (this : SpotifyClient W) w :
  let evs := snd (initial_token this w) in
  refresh_calls evs = 0 /\ attempts evs = 0 /\ timers evs = 0
  /\ body_reads evs = 0 /\ cancels evs = 0.
Proof.
  destruct (initial_token_cases this w)
    as [(s & _ & ->) | [(p & g & tok & w' & _ & _ & _ & ->) | (p & _ & _ & ->)]];
    cbn; auto.
Qed.

Section MoreCallFacts.

Context {W : Type} `{Platform W}.

Variable this : SpotifyClient W.
Variable url : URL.t.
Variable method : option HTTPMethod.
Variable _body : option string.

Local Abbreviation run := (call this url method _body).

(** With a string as [authProvider], [call] never asks for a refresh. *)
Lemma call_static_no_refresh s fuel : forall st w,
  authProvider this = TokenString s ->
  refresh_calls (trace (run fuel st w)) = 0.
Proof.
  induction fuel as [|fuel IH]; intros st w Ha; [reflexivity|].
  call_step this; try congruence; cbn [trace after finish app];
    rewrite ?refresh_calls_cons, ?refresh_calls_app; cbn [is_refresh];
    try match goal with
    | |- context [trace (call _ _ _ _ fuel ?s' ?v)] => rewrite (IH s' v Ha)
    end;
    try rewrite (proj1 (delay_events_quiet _));
    try (pose proof (extract_message_quiet JSON_parse res) as Hq;
         rewrite Hmessage in Hq; cbn [snd] in Hq; destruct Hq as [Hq _];
         rewrite Hq);
    reflexivity.
Qed.

(** Without the rate-limit flag and without a configured delay, [call]
    sets no timer. *)
Lemma call_no_timer fuel : forall st w,
  flag_truthy (SpotifyClientOpts.retryOnRateLimit (opts this)) = false ->
  int_truthy (SpotifyClientOpts.retryDelayOn5xx (opts this)) = false ->
  timers (trace (run fuel st w)) = 0.
Proof.
  induction fuel as [|fuel IH]; intros st w Hflag Hdelay; [reflexivity|].
  call_step this; cbn [trace after finish app];
    try (rewrite Hflag, andb_false_r in Hrate; discriminate);
    rewrite ?timers_cons, ?timers_app; cbn [is_timer];
    try match goal with
    | |- context [trace (call _ _ _ _ fuel ?s' ?v)] =>
        rewrite (IH s' v Hflag Hdelay)
    end;
    try rewrite (proj2 (proj2 (delay_events_plain _))), Hdelay;
    try (pose proof (extract_message_plain JSON_parse res) as Hq;
         rewrite Hmessage in Hq; cbn [snd] in Hq; destruct Hq as [Hq _];
         rewrite Hq);
    reflexivity.
Qed.

Lemma budget_after_retry (n : option Z) :
  budget_ok n = true -> int_truthy n = true ->
  budget_ok (decrement n) = true /\ S (budget (decrement n)) = budget n.
Proof.
  destruct n as [z|]; cbn; [|discriminate].
  intros Hz Hn. apply Z.leb_le in Hz. apply negb_true_iff, Z.eqb_neq in Hn.
  split; [apply Z.leb_le|]; lia.
Qed.

(** Without the rate-limit flag and with a budget that is not negative,
    [call] makes at most one attempt, plus one per retry of the budget,
    plus one when a token refresh is possible; with that much fuel it
    ends. *)
Lemma call_attempts_bound fuel : forall st w,
  flag_truthy (SpotifyClientOpts.retryOnRateLimit (opts this)) = false ->
  budget_ok (retryTimesOn5xx st) = true ->
  attempts (trace (run fuel st w))
  <= budget (retryTimesOn5xx st) + refresh_room this st + 1
  /\ (budget (retryTimesOn5xx st) + refresh_room this st + 1 <= fuel ->
      completion (run fuel st w) <> OutOfFuel).
Proof.
  induction fuel as [|fuel IH]; intros st w Hflag Hb.
  - cbn. split; lia.
  - call_step this; cbn [trace after finish app completion];
      try (rewrite Hflag, andb_false_r in Hrate; discriminate);
      rewrite ?attempts_cons, ?attempts_app; cbn [is_attempt];
      (* the exits: one attempt *)
      try solve [split; [change (attempts []) with 0; lia|discriminate]];
      try solve [pose proof (extract_message_quiet JSON_parse res) as Hq;
                 rewrite Hmessage in Hq; cbn [snd] in Hq;
                 destruct Hq as (_ & _ & Hq & _); rewrite Hq;
                 split; [lia|discriminate]];
      (* a retry after a server error *)
      try solve [apply andb_prop in Hserver; destruct Hserver as [_ Hn];
                 cbn [authorize retryTimesOn5xx] in Hn;
                 destruct (budget_after_retry _ Hb Hn) as [Hb' Hk];
                 destruct (IH (consumed_retry (authorize st)) w' Hflag Hb')
                   as [Ha Hc];
                 rewrite (proj2 (proj2 (delay_events_quiet _)));
                 unfold refresh_room in *;
                 cbn [isTriedRefreshToken consumed_retry authorize
                      retryTimesOn5xx] in *;
                 split; [lia|intros Hf; apply Hc; lia]].
    (* the retry after a token refresh *)
    apply andb_prop in Hcond. destruct Hcond as [_ Ht].
    cbn [isTriedRefreshToken authorize] in Ht. apply negb_true_iff in Ht.
    destruct (IH (refreshed (authorize st) tok) w'' Hflag Hb) as [Ha Hc].
    unfold refresh_room in *. rewrite Hauth, Ht in *.
    cbn [is_object isTriedRefreshToken refreshed authorize retryTimesOn5xx
         negb andb] in *.
    split; [lia|]. intros Hf. apply Hc. lia.
Qed.

(** A negative retry count never reaches zero: against server errors
    [call] retries for ever. *)
Lemma call_negative_budget fuel : forall st w z,
  (forall r w0, (500 <= Response.status (fst (global_fetch r w0)) <= 599)%N) ->
  retryTimesOn5xx st = Some z ->
  (z < 0)%Z ->
  completion (run fuel st w) = OutOfFuel
  /\ attempts (trace (run fuel st w)) = fuel.
Proof.
  induction fuel as [|fuel IH]; intros st w z Hall Hz Hneg; [now cbn|].
  destruct (global_fetch (request url method _body (authorize st)) w)
    as [res w'] eqn:E.
  pose proof (Hall (request url method _body (authorize st)) w) as Hs.
  rewrite E in Hs. cbn [fst] in Hs.
  destruct (status_5xx_facts this (authorize st) res Hs) as (Hok & _ & Hrl & Hse).
  destruct (status_5xx_facts this st res Hs) as (_ & Hnr & _ & _).
  cbn [authorize retryTimesOn5xx] in Hse. rewrite Hz in Hse.
  assert (Hse' : server_error_retry (authorize st) res = true).
  { rewrite Hse. cbn. apply negb_true_iff, Z.eqb_neq. lia. }
  rewrite (call_server_error this url method _body fuel st w res w' E Hok Hnr Hrl Hse').
  destruct (IH (consumed_retry (authorize st)) w' (z - 1)%Z Hall) as [Hc Ha].
  { cbn [consumed_retry authorize retryTimesOn5xx]. now rewrite Hz. }
  { lia. }
  cbn [after completion trace app].
  rewrite attempts_cons, attempts_app, (proj2 (proj2 (delay_events_quiet _))), Ha.
  split; [exact Hc|reflexivity].
Qed.

End MoreCallFacts.

Section MoreFetchFacts.

Context {W : Type} `{Platform W}.

(** The bound on the attempts of a logical call. *)
Lemma fetch_attempts_bound (this : SpotifyClient W) baseURL responseType o fuel w :
  flag_truthy (SpotifyClientOpts.retryOnRateLimit (opts this)) = false ->
  budget_ok (SpotifyClientOpts.retryTimesOn5xx (opts this)) = true ->
  let out := fetch this baseURL responseType o fuel w in
  let bound := budget (SpotifyClientOpts.retryTimesOn5xx (opts this))
               + (if is_object (authProvider this) then 1 else 0) + 1 in
  attempts (events out) <= bound
  /\ (bound <= fuel -> result out <> OutOfFuel).
Proof.
  intros Hflag Hb. cbv zeta.
  destruct (fetch_cases this baseURL responseType o fuel w)
    as [(tok & w0 & evs0 & Hi & Hevs & _) | (_ & _ & He & Hr & _)].
  - destruct (fetch_trace this baseURL responseType o fuel w tok w0 evs0 Hi)
      as (He & Hr & _).
    cbv zeta in He, Hr. rewrite He, Hr.
    match goal with |- context [completion (call ?t ?u ?m ?b fuel ?st w0)] =>
      destruct (call_attempts_bound t u m b fuel st w0 Hflag Hb) as [Ha Hc]
    end.
    unfold refresh_room in Ha, Hc.
    cbn [initial_locals isTriedRefreshToken retryTimesOn5xx negb] in Ha, Hc.
    rewrite andb_true_r in Ha, Hc.
    rewrite !attempts_app.
    assert (E0 : attempts evs0 = 0) by (destruct Hevs as [-> | ->]; reflexivity).
    rewrite E0. split.
    + destruct (completion _) as [res| |];
        rewrite ?(proj2 (proj2 (handle_response_quiet responseType res)));
        change (attempts []) with 0; lia.
    + intros Hf. specialize (Hc Hf).
      destruct (completion _) as [res| |]; try congruence.
      unfold handle_response.
      destruct responseType, (Response.body res); cbn; try discriminate.
      destruct (JSON_parse s); discriminate.
  - rewrite He, Hr. cbn. split; [lia|discriminate].
Qed.

(** No timer without the options that wait. *)
Lemma fetch_no_timer (this : SpotifyClient W) baseURL responseType o fuel w :
  flag_truthy (SpotifyClientOpts.retryOnRateLimit (opts this)) = false ->
  int_truthy (SpotifyClientOpts.retryDelayOn5xx (opts this)) = false ->
  timers (events (fetch this baseURL responseType o fuel w)) = 0.
Proof.
  intros Hflag Hdelay.
  destruct (fetch_cases this baseURL responseType o fuel w)
    as [(tok & w0 & evs0 & Hi & Hevs & _) | (_ & _ & He & _)].
  - destruct (fetch_trace this baseURL responseType o fuel w tok w0 evs0 Hi)
      as (He & _).
    cbv zeta in He. rewrite He, !timers_app, call_no_timer by assumption.
    assert (E0 : timers evs0 = 0) by (destruct Hevs as [-> | ->]; reflexivity).
    rewrite E0. destruct (completion _) as [res| |]; try reflexivity.
    unfold handle_response. destruct responseType, (Response.body res);
      reflexivity.
  - now rewrite He.
Qed.

End MoreFetchFacts.

(** X1.  With a string as [authProvider] the provider methods are never
    called: no [getToken()], no [refreshToken()].  A 401 is then not
    retried: against a transport that answers 401, the call makes one
    attempt and ends at line 229, by [throw new SpotifyError(message, 401)]:
    a SpotifyError of status 401, unless the body of the answer holds a
    message that cannot be converted to a string. *)
Theorem static_token_is_never_refreshed {W : Type} `{Platform W}
  (this : SpotifyClient W) baseURL responseType o fuel w s :
  authProvider this = TokenString s ->
  let out := fetch this baseURL responseType o fuel w in
  getToken_calls (events out) = 0
  /\ refresh_calls (events out) = 0
  /\ ((forall req w', Response.status (fst (global_fetch req w')) = 401%N) ->
      1 <= fuel ->
      attempts (events out) = 1
      /\ exists message, result out = Throw (new_SpotifyError message 401)).
Proof.
  intros Ha. cbv zeta.
  assert (Hi : initial_token this w = (Return s, w, [])).
  { unfold initial_token. now rewrite Ha. }
  destruct (fetch_trace this baseURL responseType o fuel w s w [] Hi)
    as (He & Hr & _).
  cbv zeta in He, Hr. rewrite He, Hr. cbn [app].
  split; [|split].
  - rewrite getToken_calls_app, call_no_getToken.
    destruct (completion _); try reflexivity.
    apply (proj1 (proj2 (handle_response_quiet responseType a))).
  - rewrite refresh_calls_app, (call_static_no_refresh this _ _ _ s fuel _ _ Ha).
    destruct (completion _); try reflexivity.
    apply (proj1 (handle_response_quiet responseType a)).
  - intros Hall Hfuel. destruct fuel as [|fuel]; [lia|].
    set (url := request_url baseURL (FetchOpts.query o)).
    set (body := request_body (FetchOpts.body o) (FetchOpts.json o)).
    set (st := initial_locals this o s).
    destruct (global_fetch (request url (FetchOpts.method o) body (authorize st)) w)
      as [res w'] eqn:E.
    pose proof (Hall (request url (FetchOpts.method o) body (authorize st)) w) as Hs.
    rewrite E in Hs. cbn [fst] in Hs.
    destruct (status_401_facts this (authorize st) res Hs) as (Hok & Hrl & Hse).
    assert (Hnr : no_refresh this st res = true).
    { unfold no_refresh. rewrite Ha. cbn. now rewrite andb_false_r. }
    rewrite (call_terminal this url (FetchOpts.method o) body fuel st w
               res w' E Hok Hnr Hrl Hse).
    cbn [finish completion trace]. rewrite app_nil_r, attempts_cons, Hs.
    rewrite (proj1 (proj2 (proj2 (extract_message_quiet JSON_parse res)))).
    split; [reflexivity|eauto].
Qed.

(** An instance of X1. *)
Lemma static_token_is_never_refreshed_witness :
  let out := @fetch unit
               (Fixed.platform (Sim.respond 401 [] (Some "Unauthorized")))
               (Fixed.client (TokenString "tok") 3 0 true)
               "/me" json FetchOpts.empty 5 tt in
  result out = Throw (SpotifyError "Unauthorized" 401)
  /\ getToken_calls (events out) = 0
  /\ refresh_calls (events out) = 0
  /\ attempts (events out) = 1
  /\ exists message, result out = Throw (new_SpotifyError message 401).
Proof.
  cbv zeta.
  pose proof (@static_token_is_never_refreshed unit
                (Fixed.platform (Sim.respond 401 [] (Some "Unauthorized")))
                (Fixed.client (TokenString "tok") 3 0 true)
                "/me" json FetchOpts.empty 5 tt "tok" eq_refl) as (H1 & H2 & H3).
  split; [reflexivity|].
  split; [exact H1|]. split; [exact H2|].
  exact (H3 (fun _ _ => eq_refl) ltac:(lia)).
Defined.

(** X2.  Without the rate-limit flag and with a retry count that is not
    negative, every logical call ends, whatever the transport answers: it
    makes at most one attempt, plus one per configured retry, plus one
    when the provider is an object (the retry after a token refresh). *)
Theorem calls_end_without_rate_limit_retry {W : Type} `{Platform W}
  (this : SpotifyClient W) baseURL responseType o fuel w :
  flag_truthy (SpotifyClientOpts.retryOnRateLimit (opts this)) = false ->
  budget_ok (SpotifyClientOpts.retryTimesOn5xx (opts this)) = true ->
  let out := fetch this baseURL responseType o fuel w in
  let bound := budget (SpotifyClientOpts.retryTimesOn5xx (opts this))
               + (if is_object (authProvider this) then 1 else 0) + 1 in
  attempts (events out) <= bound
  /\ (bound <= fuel -> result out <> OutOfFuel).
Proof.
  exact (fetch_attempts_bound this baseURL responseType o fuel w).
Qed.

(** An instance of X2: two retries, a static token, a transport that
    answers 503: three units of fuel are enough. *)
Lemma calls_end_without_rate_limit_retry_witness :
  let out := @fetch unit
               (Fixed.platform (Sim.respond 503 [] (Some "busy")))
               (Fixed.client (TokenString "tok") 2 0 false)
               "/me" json FetchOpts.empty 3 tt in
  attempts (events out) <= 3 /\ result out <> OutOfFuel.
Proof.
  cbv zeta.
  pose proof (@calls_end_without_rate_limit_retry unit
                (Fixed.platform (Sim.respond 503 [] (Some "busy")))
                (Fixed.client (TokenString "tok") 2 0 false)
                "/me" json FetchOpts.empty 3 tt eq_refl eq_refl) as [H1 H2].
  split; [exact H1|]. apply H2. cbn. lia.
Defined.

(** X3.  A negative retry count is truthy and decrementing it never makes
    it zero: against a transport that answers server errors, the call
    retries for ever (whatever the fuel, it is still running, and every
    unit of fuel went into an attempt). *)
Theorem negative_retry_count_never_stops {W : Type} `{Platform W}
  (this : SpotifyClient W) baseURL responseType o fuel w (z : Z) :
  SpotifyClientOpts.retryTimesOn5xx (opts this) = Some z ->
  (z < 0)%Z ->
  resolves_token (authProvider this) = true ->
  (forall req w',
     (500 <= Response.status (fst (global_fetch req w')) <= 599)%N) ->
  let out := fetch this baseURL responseType o fuel w in
  result out = OutOfFuel /\ attempts (events out) = fuel.
Proof.
  intros Hz Hneg Hres Hall. cbv zeta.
  destruct (fetch_cases this baseURL responseType o fuel w)
    as [(tok & w0 & evs0 & Hi & Hevs & _) | (_ & Hno & _)]; [|congruence].
  destruct (fetch_trace this baseURL responseType o fuel w tok w0 evs0 Hi)
    as (He & Hr & _).
  cbv zeta in He, Hr. rewrite He, Hr.
  match goal with |- context [completion (call ?t ?u ?m ?b fuel ?st w0)] =>
    destruct (call_negative_budget t u m b fuel st w0 z Hall Hz Hneg) as [Hc Ha]
  end.
  rewrite Hc, !attempts_app, Ha. split; [reflexivity|].
  destruct Hevs as [-> | ->]; cbn; lia.
Qed.

(** An instance of X3: [retryTimesOn5xx = -1]. *)
Lemma negative_retry_count_never_stops_witness :
  let out := @fetch unit
               (Fixed.platform (Sim.respond 503 [] (Some "busy")))
               (Fixed.client (TokenString "tok") (-1) 0 false)
               "/me" json FetchOpts.empty 25 tt in
  result out = OutOfFuel /\ attempts (events out) = 25.
Proof.
  exact (@negative_retry_count_never_stops unit
           (Fixed.platform (Sim.respond 503 [] (Some "busy")))
           (Fixed.client (TokenString "tok") (-1) 0 false)
           "/me" json FetchOpts.empty 25 tt (-1)%Z
           eq_refl ltac:(lia) eq_refl (fun _ _ => ltac:(cbn; lia))).
Defined.

(** X4.  The call waits only on a rate-limit retry or before a server-
    error retry with a configured delay: without the rate-limit flag and
    with no delay (zero or missing), it sets no timer at all. *)
Theorem no_timer_without_wait_options {W : Type} `{Platform W}
  (this : SpotifyClient W) baseURL responseType o fuel w :
  flag_truthy (SpotifyClientOpts.retryOnRateLimit (opts this)) = false ->
  int_truthy (SpotifyClientOpts.retryDelayOn5xx (opts this)) = false ->
  timers (events (fetch this baseURL responseType o fuel w)) = 0.
Proof.
  exact (fetch_no_timer this baseURL responseType o fuel w).
Qed.

(** An instance of X4: retries without delay. *)
Lemma no_timer_without_wait_options_witness :
  timers (events (@fetch unit
                    (Fixed.platform (Sim.respond 503 [] (Some "busy")))
                    (Fixed.client (TokenString "tok") 2 0 false)
                    "/me" json FetchOpts.empty 3 tt)) = 0.
Proof.
  exact (@no_timer_without_wait_options unit
           (Fixed.platform (Sim.respond 503 [] (Some "busy")))
           (Fixed.client (TokenString "tok") 2 0 false)
           "/me" json FetchOpts.empty 3 tt eq_refl eq_refl).
Defined.

(** X5.  A client built without options (the default of the
    constructor: no retry on server errors, no delay, no rate-limit
    retry) never waits and makes one attempt, or two when the provider is
    an object and the first answer is a 401; two units of fuel are enough
    for the call to end. *)
Theorem default_options_make_at_most_two_attempts {W : Type} `{Platform W}
  (this : SpotifyClient W) baseURL responseType o fuel w :
  opts this = SpotifyClientOpts.default ->
  2 <= fuel ->
  let out := fetch this baseURL responseType o fuel w in
  timers (events out) = 0
  /\ attempts (events out) <= (if is_object (authProvider this) then 2 else 1)
  /\ result out <> OutOfFuel.
Proof.
  intros Ho Hfuel. cbv zeta.
  pose proof (fetch_no_timer this baseURL responseType o fuel w) as Ht.
  pose proof (fetch_attempts_bound this baseURL responseType o fuel w) as Hb.
  rewrite Ho in Ht, Hb. cbv zeta in Hb. cbn in Ht, Hb.
  specialize (Ht eq_refl eq_refl). destruct (Hb eq_refl eq_refl) as [Ha Hc].
  split; [exact Ht|]. split.
  - destruct (is_object (authProvider this)); cbn in Ha; lia.
  - apply Hc. destruct (is_object (authProvider this)); cbn; lia.
Qed.

(** An instance of X5: a dynamic token source and a transport that
    answers 401. *)
Lemma default_options_make_at_most_two_attempts_witness :
  let this := {| authProvider := ProviderObj Fixed.token_source;
                 opts := SpotifyClientOpts.default |} in
  let out := @fetch unit
               (Fixed.platform (Sim.respond 401 [] (Some "Unauthorized")))
               this "/me" json FetchOpts.empty 2 tt in
  timers (events out) = 0 /\ attempts (events out) <= 2
  /\ result out <> OutOfFuel.
Proof.
  exact (@default_options_make_at_most_two_attempts unit
           (Fixed.platform (Sim.respond 401 [] (Some "Unauthorized")))
           {| authProvider := ProviderObj Fixed.token_source;
              opts := SpotifyClientOpts.default |}
           "/me" json FetchOpts.empty 2 tt eq_refl (le_n 2)).
Defined.

(** X6.  A provider object that has [getToken] and no [refreshToken]:
    against a transport that answers 401, the call makes one attempt and
    throws the TypeError of line 192; no refreshed token, no second
    attempt. *)
Theorem missing_refreshToken_throws {W : Type} `{Platform W}
  (this : SpotifyClient W) baseURL responseType o fuel w p get_fn :
  authProvider this = ProviderObj p ->
  getToken p = Some get_fn ->
  refreshToken p = None ->
  (forall req w', Response.status (fst (global_fetch req w')) = 401%N) ->
  1 <= fuel ->
  let out := fetch this baseURL responseType o fuel w in
  result out =
    Throw (TypeError "this.authProvider.refreshToken is not a function")
  /\ attempts (events out) = 1
  /\ refresh_calls (events out) = 0.
Proof.
  intros Ha Hg Hr Hall Hfuel. cbv zeta.
  destruct fuel as [|fuel]; [lia|].
  destruct (get_fn w) as [tok w0] eqn:Egw.
  assert (Hi : initial_token this w = (Return tok, w0, [CallGetToken tok])).
  { unfold initial_token. now rewrite Ha, Hg, Egw. }
  destruct (fetch_trace this baseURL responseType o (S fuel) w tok w0 _ Hi)
    as (He & Hres & _).
  cbv zeta in He, Hres. rewrite He, Hres. clear He Hres.
  cbn [call].
  match goal with |- context [global_fetch ?r w0] =>
    pose proof (Hall r w0) as Hs; destruct (global_fetch r w0) as [res w1]
  end.
  cbn [fst] in Hs. unfold Response.ok. rewrite Hs, Ha. cbn. rewrite Hr. cbn.
  auto.
Qed.

(** An instance of X6. *)
Lemma missing_refreshToken_throws_witness :
  let out := @fetch unit
               (Fixed.platform (Sim.respond 401 [] (Some "Unauthorized")))
               (Fixed.client (ProviderObj (getter_only "tok")) 0 0 false)
               "/me" json FetchOpts.empty 4 tt in
  result out =
    Throw (TypeError "this.authProvider.refreshToken is not a function")
  /\ attempts (events out) = 1
  /\ refresh_calls (events out) = 0.
Proof.
  exact (@missing_refreshToken_throws unit
           (Fixed.platform (Sim.respond 401 [] (Some "Unauthorized")))
           (Fixed.client (ProviderObj (getter_only "tok")) 0 0 false)
           "/me" json FetchOpts.empty 4 tt (getter_only "tok") _
           eq_refl eq_refl eq_refl (fun _ _ => eq_refl) ltac:(lia)).
Defined.

(** ** The requests of a logical call *)

Lemma requests_app (a b : list Event) :
  requests (a ++ b) = requests a ++ requests b.
Proof.
  induction a as [|e a IH]; cbn; [reflexivity|].
  destruct e; cbn; now rewrite ?IH.
Qed.

Lemma delay_events_no_request (d : option Z) : requests (delay_events d) = [].
Proof.
  unfold delay_events. destruct d as [z|]; [destruct (negb (z =? 0)%Z)|];
    reflexivity.
Qed.

Lemma extract_message_no_request (parse : string -> option JSONValue) res :
  requests (snd (extract_message parse res)) = [].
Proof. unfold extract_message. destruct (Response.body res); reflexivity. Qed.

Section RequestFacts.

Context {W : Type} `{Platform W}.

Lemma call_requests (this : SpotifyClient W) url method _body fuel :
  forall st w,
  Forall (request_like url method _body (_headers st))
    (requests (trace (call this url method _body fuel st w))).
Proof.
  induction fuel as [|fuel IH]; intros st w; [constructor|].
  assert (Hreq : request_like url method _body (_headers st)
                   (request url method _body (authorize st))).
  { unfold request_like. cbn. repeat split.
    - apply remove_set.
    - apply one_header_after_set. }
  assert (Hstep : forall l,
    Forall (request_like url method _body (_headers (authorize st))) l ->
    Forall (request_like url method _body (_headers st)) l).
  { intros l. apply Forall_impl. intros r (H1 & H2 & H3 & H4 & H5).
    unfold request_like. repeat split; auto.
    rewrite H4. cbn. apply remove_set. }
  call_step this; cbn [trace after finish app requests];
    rewrite ?requests_app, ?delay_events_no_request; cbn [requests app];
    constructor; try exact Hreq; try constructor;
    try (apply Hstep;
         match goal with
         | |- context [call _ _ _ _ fuel ?s' ?v] => exact (IH s' v)
         end);
    try (pose proof (extract_message_no_request JSON_parse res) as Hq;
         rewrite Hmessage in Hq; cbn [snd] in Hq; rewrite Hq; constructor).
Qed.

(** The requests of a logical call. *)
Lemma fetch_requests (this : SpotifyClient W) baseURL responseType o fuel w :
  Forall (request_like (request_url baseURL (FetchOpts.query o))
            (FetchOpts.method o)
            (request_body (FetchOpts.body o) (FetchOpts.json o))
            (request_headers (FetchOpts.headers o)))
    (requests (events (fetch this baseURL responseType o fuel w))).
Proof.
  destruct (fetch_cases this baseURL responseType o fuel w)
    as [(tok & w0 & evs0 & Hi & Hevs & _) | (_ & _ & He & _)].
  - destruct (fetch_trace this baseURL responseType o fuel w tok w0 evs0 Hi)
      as (He & _).
    cbv zeta in He. rewrite He, !requests_app.
    assert (E0 : requests evs0 = []) by (destruct Hevs as [-> | ->]; reflexivity).
    assert (E1 : requests
              match completion
                      (call this (request_url baseURL (FetchOpts.query o))
                         (FetchOpts.method o)
                         (request_body (FetchOpts.body o) (FetchOpts.json o))
                         fuel (initial_locals this o tok) w0) with
              | Return res => snd (handle_response responseType res)
              | _ => []
              end = []).
    { destruct (completion _) as [res| |]; try reflexivity.
      unfold handle_response. destruct responseType, (Response.body res);
        reflexivity. }
    rewrite E0, E1, app_nil_r. cbn [app].
    apply (call_requests this _ _ _ fuel (initial_locals this o tok) w0).
  - rewrite He. constructor.
Qed.

End RequestFacts.

(** X7.  Every physical attempt of a logical call sends the same
    request: the URL built from the path and the query, the method and the
    body of the options, and, apart from [Authorization], the header list
    built at the start (base headers, then the caller's), in the same
    order.  Retrying changes nothing but the token. *)
Theorem every_attempt_sends_the_same_request {W : Type} `{Platform W}
  (this : SpotifyClient W) baseURL responseType o fuel w :
  Forall (fun req =>
            Request.url req = request_url baseURL (FetchOpts.query o)
            /\ Request.method req = FetchOpts.method o
            /\ Request.body req
               = request_body (FetchOpts.body o) (FetchOpts.json o)
            /\ Headers.remove (Request.headers req) "Authorization"
               = Headers.remove (request_headers (FetchOpts.headers o))
                   "Authorization")
    (requests (events (fetch this baseURL responseType o fuel w))).
Proof.
  eapply Forall_impl; [|apply fetch_requests].
  intros req (H1 & H2 & H3 & H4 & _). auto.
Qed.

(** X8.  Whatever headers the caller supplies, also headers named
    [Authorization] in any case and any number, every request of a
    logical call has exactly one [Authorization] header. *)
Theorem every_attempt_has_one_Authorization_header {W : Type} `{Platform W}
  (this : SpotifyClient W) baseURL responseType o fuel w :
  Forall (fun req =>
            List.length (authorization_headers (Request.headers req)) = 1)
    (requests (events (fetch this baseURL responseType o fuel w))).
Proof.
  eapply Forall_impl; [|apply fetch_requests].
  intros req (_ & _ & _ & _ & H5). exact H5.
Qed.

(** X9.  The body of the requests, line 162.  A raw body that is not the
    empty string is sent as it is, whatever [json] is.  Without a raw body,
    or with the empty string as raw body, a truthy [json] value is sent
    stringified; a missing or falsy [json] value ([null], [false], zero,
    the empty string) gives requests without body. *)
Theorem raw_body_wins_over_json {W : Type} `{Platform W}
  (this : SpotifyClient W) baseURL responseType o fuel w :
  let reqs := requests (events (fetch this baseURL responseType o fuel w)) in
  (forall b, FetchOpts.body o = Some b -> b <> EmptyString ->
     Forall (fun req => Request.body req = Some b) reqs)
  /\ (FetchOpts.body o = None \/ FetchOpts.body o = Some EmptyString ->
      forall j, FetchOpts.json o = Some j -> json_truthy j = true ->
      Forall (fun req => Request.body req = Some (JSON_stringify j)) reqs)
  /\ (FetchOpts.body o = None \/ FetchOpts.body o = Some EmptyString ->
      FetchOpts.json o = None
      \/ (exists j, FetchOpts.json o = Some j /\ json_truthy j = false) ->
      Forall (fun req => Request.body req = None) reqs).
Proof.
  cbv zeta.
  pose proof (fetch_requests this baseURL responseType o fuel w) as Hall.
  split; [|split].
  - intros b Hb Hne. eapply Forall_impl; [|exact Hall].
    intros req (_ & _ & -> & _). unfold request_body. rewrite Hb.
    apply String.eqb_neq in Hne. now rewrite Hne.
  - intros Hb j Hj Ht. eapply Forall_impl; [|exact Hall].
    intros req (_ & _ & -> & _). unfold request_body.
    destruct Hb as [-> | ->]; rewrite Hj, Ht; reflexivity.
  - intros Hb Hj. eapply Forall_impl; [|exact Hall].
    intros req (_ & _ & -> & _). unfold request_body.
    destruct Hb as [-> | ->]; destruct Hj as [-> | (j & -> & ->)];
      reflexivity.
Qed.

(** Instances of X9: a raw body beside [json]; an empty raw body beside
    [json]; the JSON value [false] alone. *)
Lemma raw_body_wins_over_json_witness :
  let P := Fixed.platform (Sim.respond 200 [] None) in
  let this := Fixed.client (TokenString "tok") 0 0 false in
  let opts b j : FetchOpts.t (list (string * string)) :=
    {| FetchOpts.method := Some POST; FetchOpts.json := j;
       FetchOpts.query := None; FetchOpts.headers := None;
       FetchOpts.body := b |} in
  let reqs b j := requests (events (@fetch unit P this "/me" void (opts b j) 1 tt)) in
  Forall (fun req => Request.body req = Some "raw")
    (reqs (Some "raw") (Some (JBool true)))
  /\ Forall (fun req => Request.body req = Some "true")
       (reqs (Some EmptyString) (Some (JBool true)))
  /\ Forall (fun req => Request.body req = None)
       (reqs None (Some (JBool false))).
Proof.
  cbv zeta.
  pose (P := Fixed.platform (Sim.respond 200 [] None)).
  pose (this := Fixed.client (TokenString "tok") 0 0 false).
  pose (opts := fun b j =>
    {| FetchOpts.method := Some POST; FetchOpts.json := j;
       FetchOpts.query := @None (list (string * string));
       FetchOpts.headers := None; FetchOpts.body := b |}).
  split; [|split].
  - refine (proj1 (@raw_body_wins_over_json unit P this "/me" void
                     (opts (Some "raw") (Some (JBool true))) 1 tt)
              "raw" eq_refl _).
    discriminate.
  - exact (proj1 (proj2 (@raw_body_wins_over_json unit P this "/me" void
                           (opts (Some EmptyString) (Some (JBool true))) 1 tt))
             (or_intror eq_refl) (JBool true) eq_refl eq_refl).
  - exact (proj2 (proj2 (@raw_body_wins_over_json unit P this "/me" void
                           (opts None (Some (JBool false))) 1 tt))
             (or_introl eq_refl)
             (or_intror (ex_intro _ (JBool false) (conj eq_refl eq_refl)))).
Defined.

(** ** A refreshed token *)

(** X10.  A 401 that is recovered.  The provider object has [getToken]
    and [refreshToken]; the first attempt, with the token of [getToken()],
    is answered 401; the attempt with the token of [refreshToken()] gets an
    ok response.  Then the call makes these two attempts and no other, the
    second request differs from the first only by the new bearer token,
    one refresh is asked for, and the response that result handling
    receives, and its result, are those of the second attempt. *)
Theorem refreshed_token_is_used_by_the_retry {W : Type} `{Platform W}
  (this : SpotifyClient W) baseURL responseType o fuel w
  p get_fn refresh_fn tok w0 res1 w1 tok' w2 res2 w3 :
  authProvider this = ProviderObj p ->
  getToken p = Some get_fn ->
  refreshToken p = Some refresh_fn ->
  get_fn w = (tok, w0) ->
  global_fetch (attempt_request baseURL o tok) w0 = (res1, w1) ->
  Response.status res1 = 401%N ->
  refresh_fn w1 = (tok', w2) ->
  global_fetch (attempt_request baseURL o tok') w2 = (res2, w3) ->
  Response.ok res2 = true ->
  2 <= fuel ->
  let out := fetch this baseURL responseType o fuel w in
  requests (events out)
  = [attempt_request baseURL o tok; attempt_request baseURL o tok']
  /\ refresh_calls (events out) = 1
  /\ response out = Some res2
  /\ result out = fst (handle_response responseType res2)
  /\ final_world out = w3.
Proof.
  intros Ha Hg Hr Egw E1 S1 Efw E2 Hok2 Hfuel. cbv zeta.
  destruct fuel as [|[|fuel]]; try lia.
  assert (Hi : initial_token this w = (Return tok, w0, [CallGetToken tok])).
  { unfold initial_token. now rewrite Ha, Hg, Egw. }
  rewrite (fetch_unfold _ _ _ _ _ _ _ _ _ Hi). cbv zeta.
  set (url := request_url baseURL (FetchOpts.query o)).
  set (body := request_body (FetchOpts.body o) (FetchOpts.json o)).
  set (st := {| _headers := request_headers (FetchOpts.headers o);
                isTriedRefreshToken := false;
                retryTimesOn5xx := SpotifyClientOpts.retryTimesOn5xx (opts this);
                accessToken := tok |}).
  assert (R1 : request url (FetchOpts.method o) body (authorize st)
               = attempt_request baseURL o tok) by reflexivity.
  assert (R2 : request url (FetchOpts.method o) body
                 (authorize (refreshed (authorize st) tok'))
               = attempt_request baseURL o tok').
  { unfold request, attempt_request. cbn. now rewrite set_twice. }
  rewrite <- R1 in E1. rewrite <- R2 in E2.
  rewrite (call_refresh this url (FetchOpts.method o) body (S fuel) st w0
             res1 w1 p refresh_fn tok' w2 E1 S1 Ha eq_refl Hr Efw).
  rewrite (call_ok this url (FetchOpts.method o) body fuel
             (refreshed (authorize st) tok') w2 res2 w3 E2 Hok2).
  cbn [after finish completion trace world events result response
       final_world app].
  rewrite R1, R2.
  destruct (handle_response responseType res2) as [c evs] eqn:Ehr.
  cbn [events result response final_world fst].
  assert (Hq : requests evs = [] /\ refresh_calls evs = 0).
  { pose proof (handle_response_quiet responseType res2) as Hq.
    rewrite Ehr in Hq. cbn [snd] in Hq. split; [|apply Hq].
    unfold handle_response in Ehr.
    destruct responseType, (Response.body res2); inversion Ehr; reflexivity. }
  destruct Hq as [Q1 Q2].
  cbn [app requests snd]. rewrite !refresh_calls_cons, Q1, Q2. cbn.
  repeat split.
Qed.

(** An instance of X10 on the simulated platform: 401, then 200. *)
Lemma refreshed_token_is_used_by_the_retry_witness :
  let res1 := Sim.respond 401 [] None in
  let res2 := Sim.respond 200 [] (Some "true") in
  let w := Sim.start [(res1, None); (res2, None)] Sim.ok_empty "tok" in
  let out := fetch (Sim.client (ProviderObj Sim.token_source) 0 0 false) "/me"
               json FetchOpts.empty 2 w in
  requests (events out)
  = [attempt_request "/me" FetchOpts.empty "tok";
     attempt_request "/me" FetchOpts.empty "tok*"]
  /\ refresh_calls (events out) = 1
  /\ response out = Some res2
  /\ result out = fst (handle_response json res2)
  /\ final_world out = Sim.start [] Sim.ok_empty "tok*".
Proof.
  exact (@refreshed_token_is_used_by_the_retry Sim.World Sim.platform
           (Sim.client (ProviderObj Sim.token_source) 0 0 false) "/me"
           json FetchOpts.empty 2
           (Sim.start [(Sim.respond 401 [] None, None);
                       (Sim.respond 200 [] (Some "true"), None)]
              Sim.ok_empty "tok")
           Sim.token_source _ _ "tok" _ (Sim.respond 401 [] None) _ "tok*" _
           (Sim.respond 200 [] (Some "true")) _
           eq_refl eq_refl eq_refl eq_refl eq_refl eq_refl eq_refl eq_refl
           eq_refl (le_n 2)).
Defined.

(** ** Body streams, in general *)

Lemma streams_closed_after_delay (open : bool) d l :
  streams_closed open (delay_events d ++ l) = streams_closed open l.
Proof.
  unfold delay_events. destruct d as [z|]; [destruct (negb (z =? 0)%Z)|];
    reflexivity.
Qed.

Lemma responses_app (a b : list Event) :
  responses (a ++ b) = responses a ++ responses b.
Proof.
  induction a as [|e a IH]; cbn; [reflexivity|].
  destruct e; cbn; now rewrite ?IH.
Qed.

Lemma delay_events_no_response (d : option Z) : responses (delay_events d) = [].
Proof.
  unfold delay_events. destruct d as [z|]; [destruct (negb (z =? 0)%Z)|];
    reflexivity.
Qed.

Lemma removelast_cons {A} (a : A) (l : list A) :
  l <> [] -> removelast (a :: l) = a :: removelast l.
Proof. destruct l; [congruence|reflexivity]. Qed.

Section Streams.

Context {W : Type} `{Platform W}.

Variable this : SpotifyClient W.
Variable url : URL.t.
Variable method : option HTTPMethod.
Variable _body : option string.

Local Abbreviation run := (call this url method _body).

(** The streams along a run of [call] that ended, followed by [tail]:
    nothing is left open exactly when no stream was open at the start and
    no retried response has a body; [tail] then starts with the stream of
    the returned response, if any. *)
Lemma call_streams fuel : forall st w tail open,
  settled (completion (run fuel st w)) = true ->
  responses (trace (run fuel st w)) <> []
  /\ streams_closed open (trace (run fuel st w) ++ tail)
     = negb open
       && forallb (fun res => negb (has_body res))
            (retried (trace (run fuel st w)))
       && streams_closed (left_open (completion (run fuel st w))) tail.
Proof.
  unfold retried.
  induction fuel as [|fuel IH]; intros st w tail open; [discriminate|].
  call_step this;
    cbn [trace after finish app completion settled responses streams_closed
         left_open];
    try discriminate; intros Hs;
    rewrite <- ?app_assoc, ?streams_closed_after_delay,
      ?responses_app, ?delay_events_no_response;
    cbn [app responses streams_closed];
    change (is_some (Response.body res)) with (has_body res);
    (split; [discriminate|]);
    (* the response is returned *)
    try solve [cbn [removelast forallb]; now rewrite andb_true_r];
    (* a retry *)
    try solve [match goal with
               | |- context [trace (call _ _ _ _ fuel ?s' ?v)] =>
                   destruct (IH s' v tail (has_body res) Hs) as [Hne E];
                   rewrite E, (removelast_cons res _ Hne); cbn [forallb];
                   destruct (has_body res), open; reflexivity
               end];
    (* the error path *)
    unfold extract_message in Hmessage; unfold has_body;
    destruct (Response.body res); inversion Hmessage; subst;
    cbn [app streams_closed responses removelast forallb is_some];
    now rewrite andb_true_r.
Qed.

End Streams.

(** The streams of a logical call of which every response was dealt
    with. *)
Lemma fetch_streams {W : Type} `{Platform W}
  (this : SpotifyClient W) baseURL responseType o fuel w :
  let out := fetch this baseURL responseType o fuel w in
  settled (result out) = true ->
  streams_closed false (events out)
  = forallb (fun res => negb (has_body res)) (retried (events out)).
Proof.
  cbv zeta. intros Hs.
  destruct (fetch_cases this baseURL responseType o fuel w)
    as [(tok & w0 & evs0 & Hi & Hevs & _) | (_ & _ & _ & Hr & _)];
    [|rewrite Hr in Hs; discriminate].
  destruct (fetch_trace this baseURL responseType o fuel w tok w0 evs0 Hi)
    as (He & Hr & _).
  cbv zeta in He, Hr. rewrite Hr in Hs. rewrite He. clear He Hr.
  set (r := call this (request_url baseURL (FetchOpts.query o))
              (FetchOpts.method o)
              (request_body (FetchOpts.body o) (FetchOpts.json o)) fuel
              (initial_locals this o tok) w0) in *.
  set (tail := match completion r with
               | Return res => snd (handle_response responseType res)
               | _ => []
               end).
  assert (Hsr : settled (completion r) = true).
  { destruct (completion r); auto. }
  assert (Htail : streams_closed (left_open (completion r)) tail = true
                  /\ responses tail = []).
  { unfold tail, left_open, has_body, handle_response.
    destruct (completion r) as [res| |]; auto.
    destruct responseType, (Response.body res); auto. }
  destruct Htail as [Ht1 Ht2].
  destruct (call_streams this _ _ _ fuel (initial_locals this o tok) w0
              tail false Hsr) as [_ E].
  fold r in E.
  assert (E0 : streams_closed false (evs0 ++ trace r ++ tail)
               = streams_closed false (trace r ++ tail)).
  { destruct Hevs as [-> | ->]; reflexivity. }
  assert (E1 : retried (evs0 ++ trace r ++ tail) = retried (trace r)).
  { unfold retried. rewrite !responses_app, Ht2, app_nil_r.
    destruct Hevs as [-> | ->]; reflexivity. }
  rewrite E0, E1, E, Ht1. cbn. now rewrite andb_true_r.
Qed.

(** X11.  When a logical call returns (the parsed body, or nothing for
    a call that expects no content), it leaves no body stream open exactly
    when none of the responses it retried after carries a body: the
    response it ends with is read or cancelled, and a retried response
    never is.  A call that throws is left aside here: what ended it may
    have come between a response and the reading of its body. *)
Theorem streams_closed_unless_a_retried_response_has_a_body
  {W : Type} `{Platform W}
  (this : SpotifyClient W) baseURL responseType o fuel w v :
  let out := fetch this baseURL responseType o fuel w in
  result out = Return v ->
  streams_closed false (events out)
  = forallb (fun res => negb (has_body res)) (retried (events out)).
Proof.
  cbv zeta. intros Hr.
  apply (fetch_streams this baseURL responseType o fuel w).
  now rewrite Hr.
Qed.

(** Instances of X11 on the simulated platform: a retried 503 without
    body, then a 200 with a body, leaves nothing open; a retried 503 with a
    body leaves its stream open. *)
Lemma streams_closed_unless_a_retried_response_has_a_body_witness :
  let this := Sim.client (TokenString "tok") 1 0 false in
  let run first :=
    events (fetch this "/me" json FetchOpts.empty 2
              (Sim.start [(Sim.respond 503 [] first, None);
                          (Sim.respond 200 [] (Some "{}"), None)]
                 Sim.ok_empty "tok")) in
  streams_closed false (run None) = true
  /\ streams_closed false (run (Some "busy")) = false.
Proof.
  cbv zeta. split.
  - exact (@streams_closed_unless_a_retried_response_has_a_body
             Sim.World Sim.platform (Sim.client (TokenString "tok") 1 0 false)
             "/me" json FetchOpts.empty 2
             (Sim.start [(Sim.respond 503 [] None, None);
                         (Sim.respond 200 [] (Some "{}"), None)]
                Sim.ok_empty "tok") (Some (JObject [])) eq_refl).
  - exact (@streams_closed_unless_a_retried_response_has_a_body
             Sim.World Sim.platform (Sim.client (TokenString "tok") 1 0 false)
             "/me" json FetchOpts.empty 2
             (Sim.start [(Sim.respond 503 [] (Some "busy"), None);
                         (Sim.respond 200 [] (Some "{}"), None)]
                Sim.ok_empty "tok") (Some (JObject [])) eq_refl).
Defined.

(** ** The server-error test *)

(** X12.  The test of line 207 works on the decimal text of the status.
    For every three-digit status it holds exactly when the status is from
    500 to 599 and the remaining retry count is a number other than
    zero. *)
Theorem server_error_test_is_the_5xx_range (st : Locals) (res : Response.t) :
  (100 <= Response.status res <= 999)%N ->
  server_error_retry st res
  = ((500 <=? Response.status res)%N && (Response.status res <=? 599)%N
     && int_truthy (retryTimesOn5xx st)).
Proof.
  intros Hs. unfold server_error_retry, Response.status_toString.
  f_equal.
  assert (Hall : forallb (fun k =>
              Bool.eqb (String.prefix "5" (decimal (100 + N.of_nat k)))
                ((500 <=? 100 + N.of_nat k)%N && (100 + N.of_nat k <=? 599)%N))
            (seq 0 900) = true) by (vm_compute; reflexivity).
  rewrite forallb_forall in Hall.
  specialize (Hall (N.to_nat (Response.status res - 100))).
  replace (100 + N.of_nat (N.to_nat (Response.status res - 100)))%N
    with (Response.status res) in Hall by lia.
  apply Bool.eqb_prop, Hall, in_seq. lia.
Qed.

(** Instances of X12: a 503 with one retry left, and a 429. *)
Lemma server_error_test_is_the_5xx_range_witness :
  let st := {| _headers := []; isTriedRefreshToken := false;
               retryTimesOn5xx := Some 1%Z; accessToken := "tok" |} in
  server_error_retry st (Sim.respond 503 [] None) = true
  /\ server_error_retry st (Sim.respond 429 [] None) = false.
Proof.
  cbv zeta. split.
  - exact (server_error_test_is_the_5xx_range
             {| _headers := []; isTriedRefreshToken := false;
                retryTimesOn5xx := Some 1%Z; accessToken := "tok" |}
             (Sim.respond 503 [] None) ltac:(cbn; lia)).
  - exact (server_error_test_is_the_5xx_range
             {| _headers := []; isTriedRefreshToken := false;
                retryTimesOn5xx := Some 1%Z; accessToken := "tok" |}
             (Sim.respond 429 [] None) ltac:(cbn; lia)).
Defined.

(** ** Result handling, both shapes *)

Section BodyUse.

Context {W : Type} `{Platform W}.

(** [call] never cancels a body, and reads one only on the error path:
    a run that returns a response has read nothing. *)
Lemma call_body_use (this : SpotifyClient W) url method _body fuel :
  forall st w,
  cancels (trace (call this url method _body fuel st w)) = 0
  /\ (forall r, completion (call this url method _body fuel st w) = Return r ->
      body_reads (trace (call this url method _body fuel st w)) = 0).
Proof.
  induction fuel as [|fuel IH]; intros st w; [split; [reflexivity|discriminate]|].
  call_step this; cbn [trace after finish app completion];
    rewrite ?cancels_cons, ?cancels_app, ?body_reads_cons, ?body_reads_app;
    cbn [is_cancel is_read];
    rewrite ?(proj1 (proj2 (delay_events_plain _))),
      ?(proj1 (delay_events_plain _));
    try solve [match goal with
               | |- context [trace (call _ _ _ _ fuel ?s' ?v)] =>
                   destruct (IH s' v) as [Hc Hr]; rewrite Hc;
                   split; [reflexivity|]; intros r Hret; now rewrite (Hr r Hret)
               end];
    try solve [split; [reflexivity|discriminate]];
    try solve [split; reflexivity];
    pose proof (extract_message_plain JSON_parse res) as Hq;
    rewrite Hmessage in Hq; cbn [snd] in Hq;
    destruct Hq as (_ & Hq1 & _); rewrite Hq1;
    (split; [reflexivity|discriminate]).
Qed.

End BodyUse.

(** X13.  A call that expects no content never returns a value.  When
    [call] hands it a response, it returns nothing, it never reads the
    body, and it cancels the body exactly once when there is one. *)
Theorem void_call_cancels_the_body {W : Type} `{Platform W}
  (this : SpotifyClient W) baseURL o fuel w :
  let out := fetch this baseURL void o fuel w in
  (forall v, result out = Return v -> v = None)
  /\ (forall res, response out = Some res ->
        result out = Return None
        /\ body_reads (events out) = 0
        /\ cancels (events out) = (if has_body res then 1 else 0)).
Proof.
  cbv zeta.
  destruct (fetch_cases this baseURL void o fuel w)
    as [(tok & w0 & evs0 & Hi & Hevs & _) | (_ & _ & _ & Hr & Hs)].
  - destruct (fetch_trace this baseURL void o fuel w tok w0 evs0 Hi)
      as (He & Hr & Hs).
    cbv zeta in He, Hr, Hs. rewrite He, Hr, Hs. clear He Hr Hs.
    match goal with |- context [completion (call ?t ?u ?m ?b fuel ?st w0)] =>
      destruct (call_body_use t u m b fuel st w0) as [Hc Hb];
      destruct (completion (call t u m b fuel st w0)) as [res| |] eqn:Ec
    end; (split; [intros v Hv; inversion Hv; reflexivity|]);
      intros r Hr; inversion Hr; subst r.
    rewrite !body_reads_app, !cancels_app, Hc, (Hb res eq_refl).
    assert (E0 : body_reads evs0 = 0 /\ cancels evs0 = 0)
      by (destruct Hevs as [-> | ->]; split; reflexivity).
    destruct E0 as [-> ->].
    unfold handle_response, has_body. destruct (Response.body res);
      repeat split.
  - rewrite Hr, Hs. split; intros ? Hx; discriminate.
Qed.

(** An instance of X13: a 200 with a body. *)
Lemma void_call_cancels_the_body_witness :
  let res := Sim.respond 200 [] (Some "ignored") in
  let out := fetch (Sim.client (TokenString "tok") 0 0 false) "/me" void
               FetchOpts.empty 1 (Sim.start [(res, None)] Sim.ok_empty "tok") in
  result out = Return None
  /\ body_reads (events out) = 0
  /\ cancels (events out) = 1.
Proof.
  exact (proj2 (@void_call_cancels_the_body Sim.World Sim.platform
                  (Sim.client (TokenString "tok") 0 0 false) "/me"
                  FetchOpts.empty 1
                  (Sim.start [(Sim.respond 200 [] (Some "ignored"), None)]
                     Sim.ok_empty "tok"))
           (Sim.respond 200 [] (Some "ignored")) eq_refl).
Defined.

(** X14.  A call that expects JSON, when [call] hands it a response:
    it never cancels the body; it reads the body exactly once when there
    is one and not at all otherwise; and when the body text is no JSON it
    throws the SyntaxError of the parser, whatever the status said. *)
Theorem json_call_reads_the_body_once {W : Type} `{Platform W}
  (this : SpotifyClient W) baseURL o fuel w res :
  let out := fetch this baseURL json o fuel w in
  response out = Some res ->
  cancels (events out) = 0
  /\ body_reads (events out) = (if has_body res then 1 else 0)
  /\ (forall text, Response.body res = Some text ->
        JSON_parse text = None -> result out = Throw SyntaxError).
Proof.
  cbv zeta.
  destruct (fetch_cases this baseURL json o fuel w)
    as [(tok & w0 & evs0 & Hi & Hevs & _) | (_ & _ & _ & _ & Hs)];
    [|rewrite Hs; discriminate].
  destruct (fetch_trace this baseURL json o fuel w tok w0 evs0 Hi)
    as (He & Hr & Hs).
  cbv zeta in He, Hr, Hs. rewrite He, Hr, Hs. clear He Hr Hs.
  match goal with |- context [completion (call ?t ?u ?m ?b fuel ?st w0)] =>
    destruct (call_body_use t u m b fuel st w0) as [Hc Hb];
    destruct (completion (call t u m b fuel st w0)) as [res'| |] eqn:Ec
  end; try discriminate.
  intros Hr. inversion Hr; subst res'.
  rewrite !body_reads_app, !cancels_app, Hc, (Hb res eq_refl).
  assert (E0 : body_reads evs0 = 0 /\ cancels evs0 = 0)
    by (destruct Hevs as [-> | ->]; split; reflexivity).
  destruct E0 as [-> ->].
  unfold handle_response, has_body. destruct (Response.body res) as [t|];
    cbn; repeat split; try discriminate.
  intros text Ht Hp. inversion Ht; subst t. now rewrite Hp.
Qed.

(** An instance of X14: a 200 whose body is no JSON text. *)
Lemma json_call_reads_the_body_once_witness :
  let res := Sim.respond 200 [] (Some "<html>") in
  let out := fetch (Sim.client (TokenString "tok") 0 0 false) "/me" json
               FetchOpts.empty 1 (Sim.start [(res, None)] Sim.ok_empty "tok") in
  cancels (events out) = 0 /\ body_reads (events out) = 1
  /\ result out = Throw SyntaxError.
Proof.
  cbv zeta.
  destruct (@json_call_reads_the_body_once Sim.World Sim.platform
              (Sim.client (TokenString "tok") 0 0 false) "/me"
              FetchOpts.empty 1
              (Sim.start [(Sim.respond 200 [] (Some "<html>"), None)]
                 Sim.ok_empty "tok")
              (Sim.respond 200 [] (Some "<html>")) eq_refl) as (H1 & H2 & H3).
  split; [exact H1|]. split; [exact H2|].
  exact (H3 "<html>" eq_refl eq_refl).
Defined.

(** ** Replacing the provider *)

(** A logical call of a client whose [authProvider] is the string [s]. *)
Lemma fetch_static_token {W : Type} `{Platform W}
  (this : SpotifyClient W) baseURL responseType o fuel w s :
  authProvider this = TokenString s ->
  let out := fetch this baseURL responseType o fuel w in
  getToken_calls (events out) = 0
  /\ refresh_calls (events out) = 0
  /\ attempts_carry_token (Some s) (events out) = true.
Proof.
  intros Ha. cbv zeta.
  assert (Hi : initial_token this w = (Return s, w, [])).
  { unfold initial_token. now rewrite Ha. }
  destruct (fetch_trace this baseURL responseType o fuel w s w [] Hi)
    as (He & _).
  cbv zeta in He. rewrite He. cbn [app].
  assert (Hq : forall res,
            getToken_calls (snd (handle_response responseType res)) = 0
            /\ refresh_calls (snd (handle_response responseType res)) = 0
            /\ forall t, attempts_carry_token t
                           (snd (handle_response responseType res)) = true).
  { intros res. unfold handle_response.
    destruct responseType, (Response.body res); repeat split. }
  rewrite getToken_calls_app, refresh_calls_app, call_no_getToken,
    (call_static_no_refresh this _ _ _ s fuel _ _ Ha).
  pose proof (call_carries_token this (request_url baseURL (FetchOpts.query o))
                (FetchOpts.method o)
                (request_body (FetchOpts.body o) (FetchOpts.json o)) fuel
                (initial_locals this o s) w) as Hc.
  cbn [accessToken initial_locals] in Hc.
  destruct (completion _) as [res| |]; rewrite ?app_nil_r;
    repeat split; try exact Hc; try apply Hq.
  apply attempts_carry_token_app; [exact Hc|apply Hq].
Qed.

(** X15.  [setAuthProvider] keeps the options and replaces the provider
    for the calls that follow: such a call depends on the client it was
    set on only through its options, so the provider that was replaced is
    never consulted; and after setting a string, no provider method is
    called and every attempt carries that string as bearer token. *)
Theorem setAuthProvider_replaces_the_provider {W : Type} `{Platform W}
  (this other : SpotifyClient W) (a : AuthProvider W)
  baseURL responseType o fuel w :
  opts other = opts this ->
  opts (setAuthProvider this a) = opts this
  /\ fetch (setAuthProvider this a) baseURL responseType o fuel w
     = fetch (setAuthProvider other a) baseURL responseType o fuel w
  /\ (forall s, a = TokenString s ->
        let out := fetch (setAuthProvider this a) baseURL responseType o fuel w in
        getToken_calls (events out) = 0
        /\ refresh_calls (events out) = 0
        /\ attempts_carry_token (Some s) (events out) = true).
Proof.
  intros Ho. split; [reflexivity|]. split.
  - unfold setAuthProvider. now rewrite Ho.
  - intros s ->.
    exact (fetch_static_token (setAuthProvider this (TokenString s))
             baseURL responseType o fuel w s eq_refl).
Qed.

(** An instance of X15: a dynamic provider is replaced by a string
    before a call that is answered 401. *)
Lemma setAuthProvider_replaces_the_provider_witness :
  let P := Fixed.platform (Sim.respond 401 [] None) in
  let this := Fixed.client (ProviderObj Fixed.token_source) 1 0 false in
  let out := @fetch unit P (setAuthProvider this (TokenString "static"))
               "/me" json FetchOpts.empty 3 tt in
  getToken_calls (events out) = 0
  /\ refresh_calls (events out) = 0
  /\ attempts_carry_token (Some "static") (events out) = true.
Proof.
  exact (proj2 (proj2 (@setAuthProvider_replaces_the_provider unit
           (Fixed.platform (Sim.respond 401 [] None))
           (Fixed.client (ProviderObj Fixed.token_source) 1 0 false)
           (Fixed.client (ProviderObj (getter_only "other")) 1 0 false)
           (TokenString "static") "/me" json FetchOpts.empty 3 tt eq_refl))
           "static" eq_refl).
Defined.

(** ** Recovery within the budget *)

(** On the simulated platform: [k] server errors, then an ok response,
    with at least [k] retries left. *)
Lemma sim_call_recovers (this : SpotifyClient Sim.World) url method _body
  (bad good : Response.t) rest fallback tok (k : nat) :
  forall fuel st z,
  (500 <= Response.status bad <= 599)%N ->
  Response.ok good = true ->
  retryTimesOn5xx st = Some z ->
  (Z.of_nat k <= z)%Z ->
  k < fuel ->
  let r := call this url method _body fuel st
             (Sim.start (repeat (bad, None) k ++ (good, None) :: rest)
                fallback tok) in
  completion r = Return good
  /\ attempts (trace r) = S k
  /\ world r = Sim.start rest fallback tok.
Proof.
  induction k as [|k IH]; intros fuel st z Hbad Hgood Hz Hk Hfuel;
    (destruct fuel as [|fuel]; [lia|]); cbv zeta.
  - assert (E : global_fetch (request url method _body (authorize st))
                  (Sim.start (repeat (bad, None) 0 ++ (good, None) :: rest)
                     fallback tok)
                = (good, Sim.start rest fallback tok)) by reflexivity.
    rewrite (call_ok this url method _body fuel st _ good _ E Hgood).
    now cbn.
  - destruct (status_5xx_facts this (authorize st) bad Hbad)
      as (Hok & _ & Hrl & Hse).
    destruct (status_5xx_facts this st bad Hbad) as (_ & Hnr & _ & _).
    cbn [authorize retryTimesOn5xx] in Hse. rewrite Hz in Hse.
    assert (Hse' : server_error_retry (authorize st) bad = true).
    { rewrite Hse. cbn. apply negb_true_iff, Z.eqb_neq. lia. }
    assert (E : global_fetch (request url method _body (authorize st))
                  (Sim.start (repeat (bad, None) (S k) ++ (good, None) :: rest)
                     fallback tok)
                = (bad, Sim.start (repeat (bad, None) k ++ (good, None) :: rest)
                          fallback tok)) by reflexivity.
    rewrite (call_server_error this url method _body fuel st _ bad _
               E Hok Hnr Hrl Hse').
    destruct (IH fuel (consumed_retry (authorize st)) (z - 1)%Z Hbad Hgood)
      as (Hc & Ha & Hw).
    { cbn [consumed_retry authorize retryTimesOn5xx]. now rewrite Hz. }
    { lia. }
    { lia. }
    cbn [after completion trace world app].
    rewrite attempts_cons, attempts_app,
      (proj2 (proj2 (delay_events_quiet _))), Ha.
    auto.
Qed.

(** X16.  Server errors within the budget are recovered.  On the
    scripted transport, [k] answers with a 5xx status followed by an ok
    response, and a retry count of at least [k]: the call makes exactly
    [k + 1] attempts and hands the ok response to result handling; the
    rest of the script is untouched. *)
Theorem server_errors_within_budget_are_recovered
  (k : nat) (n delay : Z) (rate : bool) (bad good : Response.t)
  rest fallback tok baseURL responseType o fuel :
  (500 <= Response.status bad <= 599)%N ->
  Response.ok good = true ->
  (Z.of_nat k <= n)%Z ->
  k < fuel ->
  let out := fetch (Sim.client (TokenString tok) n delay rate) baseURL
               responseType o fuel
               (Sim.start (repeat (bad, None) k ++ (good, None) :: rest)
                  fallback tok) in
  response out = Some good
  /\ attempts (events out) = k + 1
  /\ result out = fst (handle_response responseType good)
  /\ final_world out = Sim.start rest fallback tok.
Proof.
  intros Hbad Hgood Hk Hfuel. cbv zeta.
  set (this := Sim.client (TokenString tok) n delay rate).
  set (w := Sim.start (repeat (bad, None) k ++ (good, None) :: rest) fallback tok).
  assert (Hi : initial_token this w = (Return tok, w, [])) by reflexivity.
  rewrite (fetch_unfold _ _ _ _ _ _ _ _ _ Hi). cbv zeta.
  match goal with |- context [completion (call this ?u ?m ?b fuel ?st w)] =>
    destruct (sim_call_recovers this u m b bad good rest fallback tok k
                fuel st n Hbad Hgood eq_refl Hk Hfuel) as (Hc & Ha & Hw)
  end.
  cbv zeta in Hc, Ha, Hw. fold w in Hc, Ha, Hw. rewrite Hc.
  cbn [response events result final_world app].
  rewrite attempts_app, Ha, Hw,
    (proj2 (proj2 (handle_response_quiet responseType good))).
  repeat split. lia.
Qed.

(** An instance of X16: two 503, then a 200, with three retries. *)
Lemma server_errors_within_budget_are_recovered_witness :
  let bad := Sim.respond 503 [] None in
  let good := Sim.respond 200 [] (Some "[]") in
  let out := fetch (Sim.client (TokenString "tok") 3 0 false) "/me" json
               FetchOpts.empty 3
               (Sim.start [(bad, None); (bad, None); (good, None)]
                  Sim.ok_empty "tok") in
  response out = Some good
  /\ attempts (events out) = 3
  /\ result out = fst (handle_response json good)
  /\ final_world out = Sim.start [] Sim.ok_empty "tok".
Proof.
  exact (server_errors_within_budget_are_recovered 2 3 0 false
           (Sim.respond 503 [] None) (Sim.respond 200 [] (Some "[]"))
           [] Sim.ok_empty "tok" "/me" json FetchOpts.empty 3
           ltac:(cbn; lia) eq_refl ltac:(lia) ltac:(lia)).
Defined.

(** X17.  Rate limits are waited out.  With the rate-limit flag on, on
    the scripted transport, [k] answers 429 whose [Retry-After] reads as a
    number that is neither zero nor [NaN], followed by an ok response: the
    call makes [k + 1] attempts with a wait of that number times 1000 after
    each of the first [k], whatever the retry count for server errors is
    (zero included), and hands the ok response to result handling. *)
Theorem rate_limits_are_waited_out
  (k : nat) (n delay : Z) (limited good : Response.t) h
  rest fallback tok baseURL responseType o fuel :
  Response.status limited = 429%N ->
  Headers.get (Response.headers limited) "Retry-After" = Some h ->
  number_truthy (Number (Some h)) = true ->
  Response.ok good = true ->
  k < fuel ->
  let out := fetch (Sim.client (TokenString tok) n delay true) baseURL
               responseType o fuel
               (Sim.start (repeat (limited, None) k ++ (good, None) :: rest)
                  fallback tok) in
  response out = Some good
  /\ map mark (events out)
     = List.concat (repeat [Attempt; Timer (times_1000 (Number (Some h)))] k)
       ++ Attempt :: map mark (snd (handle_response responseType good))
  /\ result out = fst (handle_response responseType good)
  /\ final_world out = Sim.start rest fallback tok.
Proof.
  intros Hs Hh Hn Hgood Hfuel. cbv zeta.
  set (this := Sim.client (TokenString tok) n delay true).
  set (w := Sim.start (repeat (limited, None) k ++ (good, None) :: rest)
              fallback tok).
  assert (Hi : initial_token this w = (Return tok, w, [])) by reflexivity.
  rewrite (fetch_unfold _ _ _ _ _ _ _ _ _ Hi). cbv zeta.
  replace fuel with (k + S (fuel - S k)) by lia.
  rewrite <- Hh in Hn |- *. unfold w.
  rewrite (sim_rate_limit_prefix this _ _ _ limited ((good, None) :: rest)
             fallback tok k (S (fuel - S k)) _ eq_refl Hs Hn).
  match goal with |- context [call this ?u ?m ?b (S ?f) ?st ?w0] =>
    assert (E : global_fetch (request u m b (authorize st)) w0
                = (good, Sim.start rest fallback tok)) by reflexivity;
    rewrite (call_ok this u m b f st w0 good _ E Hgood)
  end.
  cbn [after finish completion trace world response events result
       final_world app].
  rewrite !map_app, marks_of_waits. cbn [map mark app].
  rewrite <- app_assoc. repeat split.
Qed.

(** An instance of X17: two 429 with [Retry-After: 2], then a 200, and
    no retry on server errors. *)
Lemma rate_limits_are_waited_out_witness :
  let limited := Sim.respond 429 [("retry-after", "2")] None in
  let good := Sim.respond 200 [] (Some "[]") in
  let out := fetch (Sim.client (TokenString "tok") 0 0 true) "/me" json
               FetchOpts.empty 3
               (Sim.start [(limited, None); (limited, None); (good, None)]
                  Sim.ok_empty "tok") in
  response out = Some good
  /\ map mark (events out)
     = [Attempt; Timer (Fin (2000 # 1)); Attempt; Timer (Fin (2000 # 1));
        Attempt; BodyRead]
  /\ result out = fst (handle_response json good)
  /\ final_world out = Sim.start [] Sim.ok_empty "tok".
Proof.
  exact (rate_limits_are_waited_out 2 0 0
           (Sim.respond 429 [("retry-after", "2")] None)
           (Sim.respond 200 [] (Some "[]")) "2"
           [] Sim.ok_empty "tok" "/me" json FetchOpts.empty 3
           eq_refl eq_refl eq_refl eq_refl ltac:(lia)).
Defined.
